(** * c1tr3a: the retry/backoff engine of [src/index.js]

    A shallow embedding of [withRetry], [isRetryableError] and
    [RETRY_CONFIG], and the properties of the retry engine proved on it.

    Conventions of the embedding.
    - A JavaScript string is a [string]; [toLowerCase] maps the ASCII
      letters [A-Z] and leaves every other character alone.
    - A JavaScript number is [NaN] or an exact rational [Fin q]; the
      infinities, the signed zero and rounding are not modelled.
    - [undefined] is [None]: a policy field or an error message that is
      missing reads as [None].
    - The awaited [operation] is a transformer of the caller's world that
      yields a result or an error.  The timer and the logger are external:
      a call of [sleep] or [logger.warn] is recorded, with its arguments, in
      a trace of events. *)

From Stdlib Require Import List Bool Ascii String ZArith QArith Qround Lia Lqa.
From Equations Require Import Equations.
From Equations.Prop Require Import Logic.
Import ListNotations.

Set Implicit Arguments.

(** ** Strings *)

Module JsString.

Local Open Scope string_scope.

(** [String.prototype.toLowerCase], on ASCII. *)
Definition lower_ascii (c : ascii) : ascii :=
  let n := nat_of_ascii c in
  if (65 <=? n)%nat && (n <=? 90)%nat then ascii_of_nat (n + 32) else c.

Fixpoint toLowerCase (s : string) : string :=
  match s with
  | EmptyString => EmptyString
  | String c s' => String (lower_ascii c) (toLowerCase s')
  end.

(** [s.startsWith(p)]. *)
Fixpoint startsWith (s p : string) {struct p} : bool :=
  match p, s with
  | EmptyString, _ => true
  | String _ _, EmptyString => false
  | String a p', String b s' => Ascii.eqb a b && startsWith s' p'
  end.

(** [s.includes(sub)]: [sub] occurs in [s] at some position. *)
Fixpoint includes (s sub : string) : bool :=
  startsWith s sub ||
  match s with
  | EmptyString => false
  | String _ s' => includes s' sub
  end.

(** [sub] is a substring of [s]. *)
Definition occurs_in (sub s : string) : Prop :=
  exists pre post, s = pre ++ sub ++ post.

End JsString.

(** ** Numbers *)

Module JsNumber.

(** A number is [NaN] or finite. *)
Inductive number : Type :=
| NaN
| Fin (q : Q).

(** A variable holding a number or [undefined]. *)
Definition value : Type := option number.

Definition undefined : value := None.

(** An integer literal or loop counter as a number. *)
Definition of_Z (z : Z) : number := Fin (inject_Z z).

(** [ToNumber]: [undefined] converts to [NaN]. *)
Definition ToNumber (v : value) : number :=
  match v with
  | None => NaN
  | Some n => n
  end.

(** [a * b]. *)
Definition mul (a b : number) : number :=
  match a, b with
  | Fin x, Fin y => Fin (x * y)
  | _, _ => NaN
  end.

(** [a / b] for a non-zero literal [b]. *)
Definition div (a b : number) : number :=
  match a, b with
  | Fin x, Fin y => Fin (x / y)
  | _, _ => NaN
  end.

(** [Math.min(a, b)]: [NaN] as soon as one argument is. *)
Definition Math_min (a b : number) : number :=
  match a, b with
  | Fin x, Fin y => if Qle_bool x y then Fin x else Fin y
  | _, _ => NaN
  end.

(** [a <= b]: false as soon as one side is [NaN]. *)
Definition le (a b : number) : bool :=
  match a, b with
  | Fin x, Fin y => Qle_bool x y
  | _, _ => false
  end.

(** [a === b] for a number [a]: [undefined] and [NaN] equal nothing. *)
Definition strict_eq (a : number) (b : value) : bool :=
  match a, b with
  | Fin x, Some (Fin y) => Qeq_bool x y
  | _, _ => false
  end.

(** The order of finite numbers, as propositions. *)
Definition num_le (a b : number) : Prop :=
  match a, b with
  | Fin x, Fin y => (x <= y)%Q
  | _, _ => False
  end.

Definition num_lt (a b : number) : Prop :=
  match a, b with
  | Fin x, Fin y => (x < y)%Q
  | _, _ => False
  end.

(** The number of integers [a] with [attempt <= a <= v]. *)
Definition trips (v : value) (attempt : Z) : nat :=
  match v with
  | Some (Fin q) => Z.to_nat (Qfloor q - attempt + 1)
  | _ => O
  end.

End JsNumber.

(** ** The retry policy *)

Module Policy.
Import JsNumber.

(** The object destructured by [withRetry]: a field that the object does
    not have reads as [undefined]. *)
Record policy : Type := mkPolicy {
  maxAttempts : value;
  initialDelay : value;
  maxDelay : value;
  backoffFactor : value
}.

(** [const RETRY_CONFIG]. *)
Definition RETRY_CONFIG : policy := {|
  maxAttempts := Some (of_Z 3);
  initialDelay := Some (of_Z 1000);
  maxDelay := Some (of_Z 10000);
  backoffFactor := Some (of_Z 2)
|}.

(** The default parameter [{ ... } = RETRY_CONFIG]: the default stands in
    for an argument that is [undefined], and for nothing else. *)
Definition bind_policy (arg : option policy) : policy :=
  match arg with
  | None => RETRY_CONFIG
  | Some p => p
  end.

(** A policy as the data model types it: four finite numbers, the attempt
    budget an integer. *)
Definition numeric (p : policy) (n : Z) (d0 dmax f : Q) : Prop :=
  p = mkPolicy (Some (of_Z n)) (Some (Fin d0)) (Some (Fin dmax)) (Some (Fin f)).

End Policy.

(** ** The error classifier and the retry loop *)

Module Retry.
Import JsString JsNumber Policy.

Section Engine.

(** The result type of the operation, the error objects it throws with
    their [message] property ([None] when the property holds no string),
    and the world the operation acts on. *)
Variables (T Err S : Type).
Variable message : Err -> option string.

(** What a [throw] can carry here. *)
Inductive thrown : Type :=
| ErrorValue (e : Err)
| UndefinedValue
| TypeError.

Inductive completion (A : Type) : Type :=
| Returned (a : A)
| Threw (x : thrown).

Arguments Returned {A} a.
Arguments Threw {A} x.

(** The list inside [isRetryableError]. *)
Definition retryableErrors : list string := [
  "timeout";
  "network error";
  "nonce too low";
  "transaction underpriced";
  "insufficient funds for gas";
  "replacement fee too low";
  "rate limit exceeded";
  "Internal JSON-RPC error";
  "connection reset";
  "too many requests"
]%string.

(** [function isRetryableError(error)]: reading [toLowerCase] off a
    message that is no string raises a [TypeError]. *)
Definition isRetryableError (error : Err) : completion bool :=
  match message error with
  | None => Threw TypeError
  | Some m =>
      let errorMessage := toLowerCase m in
      Returned (existsb (fun msg => includes errorMessage (toLowerCase msg))
                        retryableErrors)
  end.

(** The effects of [withRetry], in the order they happen. *)
Inductive event : Type :=
| Call
| Warn (attempt : Z) (budget : value) (error : option string)
       (nextRetryDelay : number)
| Sleep (ms : value).

Record state : Type := mkState {
  world : S;
  trace : list event
}.

Definition emit (ev : event) (st : state) : state :=
  {| world := world st; trace := trace st ++ [ev] |}.

(** The statement a run of [withRetry] leaves by. *)
Inductive exit_point : Type :=
| ReturnInTry
| ClassifierRaised
| ThrowInCatch
| ThrowAfterLoop.

Record run : Type := mkRun {
  exit : exit_point;
  result : completion T;
  final : state
}.

(** [throw lastError]. *)
Definition throw_last (lastError : option Err) : completion T :=
  match lastError with
  | Some e => Threw (ErrorValue e)
  | None => Threw UndefinedValue
  end.

Section Loop.

Variable operation : S -> (T + Err) * S.
Variables maxAttempts maxDelay backoffFactor : value.

(** One iteration either leaves the function or goes round again with
    the next [delay] and the new [lastError]. *)
Inductive iteration : Type :=
| Done (r : run)
| Again (delay : value) (lastError : option Err) (st : state).

(** The body of the [for] loop: the [try] and its [catch]. *)
Definition body (attempt : Z) (delay : value) (st : state) : iteration :=
  let st := emit Call st in
  match operation (world st) with
  | (inl r, w) =>
      Done (mkRun ReturnInTry (Returned r) (mkState w (trace st)))
  | (inr error, w) =>
      let st := mkState w (trace st) in
      match isRetryableError error with
      | Threw x => Done (mkRun ClassifierRaised (Threw x) st)
      | Returned retryable =>
          if negb retryable || strict_eq (of_Z attempt) maxAttempts
          then Done (mkRun ThrowInCatch (Threw (ErrorValue error)) st)
          else
            let st := emit (Warn attempt maxAttempts (message error)
                                 (div (ToNumber delay) (of_Z 1000))) st in
            let st := emit (Sleep delay) st in
            Again (Some (Math_min (mul (ToNumber delay) (ToNumber backoffFactor))
                                  (ToNumber maxDelay)))
                  (Some error) st
      end
  end.

Lemma le_trips_decrease attempt :
  le (of_Z attempt) (ToNumber maxAttempts) = true ->
  (trips maxAttempts (attempt + 1) < trips maxAttempts attempt)%nat.
Proof.
  unfold trips, le, of_Z. destruct maxAttempts as [[|q]|]; simpl; try discriminate.
  intros H. apply Qle_bool_iff in H. apply Qfloor_resp_le in H.
  rewrite Qfloor_Z in H. lia.
Qed.

(** [for (let attempt = 1; attempt <= maxAttempts; attempt++) body;
    throw lastError]. *)
Equations loop (attempt : Z) (delay : value) (lastError : option Err)
  (st : state) : run by wf (trips maxAttempts attempt) lt :=
loop attempt delay lastError st
  with inspect (le (of_Z attempt) (ToNumber maxAttempts)) := {
  | exist _ true Hle with body attempt delay st := {
    | Done r => r
    | Again delay' lastError' st' => loop (attempt + 1) delay' lastError' st' }
  | exist _ false _ => mkRun ThrowAfterLoop (throw_last lastError) st }.
Next Obligation.
  now apply le_trips_decrease.
Qed.

End Loop.

(** [async function withRetry(operation, { maxAttempts, initialDelay,
    maxDelay, backoffFactor } = RETRY_CONFIG)]. *)
Definition withRetry (operation : S -> (T + Err) * S) (arg : option policy)
  (st : state) : run :=
  let p := bind_policy arg in
  loop operation (maxAttempts p) (maxDelay p) (backoffFactor p)
       1 (initialDelay p) None st.

(** *** Observations on a run *)

(** The state [withRetry] is called in: nothing has happened yet. *)
Definition initial (w : S) : state := mkState w [].

(** The number of invocations of the operation in a trace. *)
Fixpoint calls (tr : list event) : nat :=
  match tr with
  | [] => O
  | Call :: tr' => Datatypes.S (calls tr')
  | _ :: tr' => calls tr'
  end.

(** The arguments of the successive [sleep]s of a trace. *)
Fixpoint sleeps (tr : list event) : list value :=
  match tr with
  | [] => []
  | Sleep ms :: tr' => ms :: sleeps tr'
  | _ :: tr' => sleeps tr'
  end.

(** The world after [k] successive invocations of the operation, and the
    outcome of the invocation that follows them (invocation [k + 1]). *)
Fixpoint world_after (operation : S -> (T + Err) * S) (k : nat) (w : S) : S :=
  match k with
  | O => w
  | Datatypes.S k' => world_after operation k' (snd (operation w))
  end.

Definition outcome (operation : S -> (T + Err) * S) (k : nat) (w : S)
  : T + Err :=
  fst (operation (world_after operation k w)).

(** The assignment [delay = Math.min(delay * backoffFactor, maxDelay)]. *)
Definition next_delay (p : policy) (delay : value) : value :=
  Some (Math_min (mul (ToNumber delay) (ToNumber (backoffFactor p)))
                 (ToNumber (maxDelay p))).

(** The first [k] values [delay] takes, starting from [delay]. *)
Fixpoint schedule (p : policy) (k : nat) (delay : value) : list value :=
  match k with
  | O => []
  | Datatypes.S k' => delay :: schedule p k' (next_delay p delay)
  end.

(** The test of the [for] statement, [attempt <= maxAttempts]. *)
Definition in_budget (p : policy) (attempt : Z) : bool :=
  le (of_Z attempt) (ToNumber (maxAttempts p)).

(** The events of an iteration that goes round again: the call that
    failed, the warning and the sleep. *)
Definition retry_events (p : policy) (attempt : Z) (delay : value) (error : Err)
  : list event :=
  [Call;
   Warn attempt (maxAttempts p) (message error)
        (div (ToNumber delay) (of_Z 1000));
   Sleep delay].

End Engine.

Arguments ErrorValue {Err} e.
Arguments UndefinedValue {Err}.
Arguments TypeError {Err}.
Arguments Returned {Err A} a.
Arguments Threw {Err A} x.
Arguments mkRun {T Err S} exit result final.
Arguments Done {T Err S} r.
Arguments Again {T Err S} delay lastError st.
Arguments throw_last T {Err} lastError.
Arguments initial {S} w.

(** The set of retryable substrings as the specification lists it. *)
Definition RetryableErrorSet : list string := [
  "timeout";
  "network error";
  "nonce too low";
  "transaction underpriced";
  "insufficient funds for gas";
  "replacement fee too low";
  "rate limit exceeded";
  "internal json-rpc error";
  "connection reset";
  "too many requests"
]%string.

(** A sequence of numbers that never decreases. *)
Fixpoint nondecreasing (l : list value) : Prop :=
  match l with
  | [] => True
  | x :: l' =>
      match l' with
      | [] => True
      | y :: _ => num_le (ToNumber x) (ToNumber y)
      end /\ nondecreasing l'
  end.

End Retry.

(** ** Concrete operations and policies

    Instances the properties below are evaluated on: the world counts the
    invocations made so far, an error is its message. *)

Module Instances.
Import JsNumber Policy Retry.
Local Open Scope string_scope.

(** An error object whose [message] is the given string. *)
Definition message_of (e : string) : option string := Some e.

(** An error object without a [message]. *)
Definition no_message (e : unit) : option string := None.

(** An operation that fails with a transient error on every call. *)
Definition always_timeout (w : nat) : (nat + string) * nat :=
  (inr "request timeout", Datatypes.S w).

(** An operation that fails with a terminal error on every call. *)
Definition always_reverted (w : nat) : (nat + string) * nat :=
  (inr "execution reverted", Datatypes.S w).

(** An operation that succeeds on every call. *)
Definition always_ok (w : nat) : (nat + string) * nat :=
  (inl w, Datatypes.S w).

(** An operation that fails twice and succeeds on its third call. *)
Definition third_time_lucky (w : nat) : (nat + string) * nat :=
  (match w with
   | O => inr "Network Error"
   | Datatypes.S O => inr "nonce too low"
   | _ => inl w
   end, Datatypes.S w).

(** An operation that throws an object without a message. *)
Definition throws_bare (w : nat) : (nat + unit) * nat :=
  (inr tt, Datatypes.S w).

(** [{ maxAttempts: 3, initialDelay: 1000, maxDelay: 10000,
    backoffFactor: 2 }]. *)
Definition three_attempts : policy :=
  mkPolicy (Some (of_Z 3)) (Some (of_Z 1000)) (Some (of_Z 10000)) (Some (of_Z 2)).

(** [{ maxAttempts: 5 }]. *)
Definition only_maxAttempts : policy :=
  mkPolicy (Some (of_Z 5)) undefined undefined undefined.

(** [{ initialDelay: 500 }]. *)
Definition only_initialDelay : policy :=
  mkPolicy undefined (Some (of_Z 500)) undefined undefined.

(** [{ maxAttempts: 3, initialDelay: -1000, maxDelay: 10000,
    backoffFactor: 2 }]. *)
Definition negative_delay : policy :=
  mkPolicy (Some (of_Z 3)) (Some (of_Z (-1000))) (Some (of_Z 10000)) (Some (of_Z 2)).

(** [{ maxAttempts: 3, initialDelay: 5000, maxDelay: 1000,
    backoffFactor: 2 }]. *)
Definition delay_above_cap : policy :=
  mkPolicy (Some (of_Z 3)) (Some (of_Z 5000)) (Some (of_Z 1000)) (Some (of_Z 2)).

(** [{ maxAttempts: 0, ... }]. *)
Definition no_attempts : policy :=
  mkPolicy (Some (of_Z 0)) (Some (of_Z 1000)) (Some (of_Z 10000)) (Some (of_Z 2)).


End Instances.

From Stdlib Require Import DecimalString.

(** ** More of the string library

    [toUpperCase], [split], [substring], [trim] and [join], on the same
    ASCII strings as above. *)

Module JsText.
Import JsString.
Local Open Scope string_scope.

(** [String.prototype.toUpperCase], on ASCII text: the letters a to z are
    mapped to A to Z and every other ASCII character is kept.  ASCII text
    is the domain of this definition, and the token names the program
    builds are ASCII.  Outside ASCII the case mapping of JavaScript is not
    modelled: there it can even change the length of a string, so a
    property that depends on the characters produced is stated for
    [ascii_text] only. *)
Definition upper_ascii (c : ascii) : ascii :=
  let n := nat_of_ascii c in
  if (97 <=? n)%nat && (n <=? 122)%nat then ascii_of_nat (n - 32) else c.

Fixpoint toUpperCase (s : string) : string :=
  match s with
  | EmptyString => EmptyString
  | String c s' => String (upper_ascii c) (toUpperCase s')
  end.

(** [s.split(sep)] for a separator of one character: the pieces between
    the occurrences of [sep], empty pieces included; never the empty
    list. *)
Fixpoint split (sep : ascii) (s : string) : list string :=
  match s with
  | EmptyString => [EmptyString]
  | String c s' =>
      if Ascii.eqb c sep then EmptyString :: split sep s'
      else
        match split sep s' with
        | w :: ws => String c w :: ws
        | [] => [String c EmptyString]
        end
  end.

(** [pieces.join(sep)]. *)
Fixpoint join (sep : string) (pieces : list string) : string :=
  match pieces with
  | [] => EmptyString
  | [w] => w
  | w :: ws => w ++ sep ++ join sep ws
  end.

(** The first [n] characters, and what follows them. *)
Fixpoint take (n : nat) (s : string) : string :=
  match n, s with
  | Datatypes.S n', String c s' => String c (take n' s')
  | _, _ => EmptyString
  end.

Fixpoint drop (n : nat) (s : string) : string :=
  match n, s with
  | Datatypes.S n', String _ s' => drop n' s'
  | _, _ => s
  end.

(** [s.substring(start, end)] for integer arguments: each index is
    clamped to [0 .. s.length], and the two are swapped when [start] is
    the larger. *)
Definition substring (s : string) (start stop : Z) : string :=
  let len := Z.of_nat (String.length s) in
  let clamp := fun i : Z => Z.min (Z.max i 0) len in
  let lo := Z.min (clamp start) (clamp stop) in
  let hi := Z.max (clamp start) (clamp stop) in
  take (Z.to_nat (hi - lo)) (drop (Z.to_nat lo) s).

(** [word[0]] inside a [join]: the first character, or nothing for the
    [undefined] an empty word gives. *)
Definition first_char (word : string) : string :=
  match word with
  | EmptyString => EmptyString
  | String c _ => String c EmptyString
  end.

(** The characters [trim] removes: tab, line feed, vertical tab, form
    feed, carriage return and space. *)
Definition is_space (c : ascii) : bool :=
  let n := nat_of_ascii c in
  ((9 <=? n)%nat && (n <=? 13)%nat) || (n =? 32)%nat.

Fixpoint trimStart (s : string) : string :=
  match s with
  | EmptyString => EmptyString
  | String c s' => if is_space c then trimStart s' else s
  end.

Fixpoint trimEnd (s : string) : string :=
  match s with
  | EmptyString => EmptyString
  | String c s' =>
      match trimEnd s' with
      | EmptyString => if is_space c then EmptyString else String c EmptyString
      | t => String c t
      end
  end.

(** [s.trim()]. *)
Definition trim (s : string) : string := trimEnd (trimStart s).

(** A string that does not begin with white space. *)
Definition no_leading_space (s : string) : Prop :=
  match s with
  | EmptyString => True
  | String c _ => is_space c = false
  end.

(** The last element of a non-empty array, [a[a.length - 1]]; the empty
    string stands for the [undefined] of an empty array. *)
Fixpoint last_word (words : list string) : string :=
  match words with
  | [] => EmptyString
  | [w] => w
  | _ :: ws => last_word ws
  end.

(** Every character of [s] is an ASCII character (a code below 128). *)
Fixpoint ascii_text (s : string) : bool :=
  match s with
  | EmptyString => true
  | String a s' => (nat_of_ascii a <? 128)%nat && ascii_text s'
  end.

(** No character of [s] is [c]. *)
Fixpoint free_of (c : ascii) (s : string) : bool :=
  match s with
  | EmptyString => true
  | String a s' => negb (Ascii.eqb a c) && free_of c s'
  end.

(** Every character of [s] is an upper-case letter. *)
Fixpoint all_upper (s : string) : bool :=
  match s with
  | EmptyString => true
  | String a s' =>
      let n := nat_of_ascii a in
      (65 <=? n)%nat && (n <=? 90)%nat && all_upper s'
  end.

End JsText.

(** ** Token names and symbols *)

Module TokenNames.
Import JsString JsText JsNumber.
Local Open Scope string_scope.

(** [const TOKEN_PREFIXES] and [const TOKEN_SUFFIXES]. *)
Definition TOKEN_PREFIXES : list string := [
  "Nakama"; "Meme"; "Pepe"; "Doge"; "Inu"; "Moon"; "Star"; "Cyber";
  "Meta"; "Pixel"; "Crypto"; "Chain"; "Web3"; "Defi"; "Space"
].

Definition TOKEN_SUFFIXES : list string := [
  "Me"; "Verse"; "World"; "X"; "AI"; "Net"; "Hub"; "Lab";
  "DAO"; "Fi"; "Swap"; "Base"; "Zone"; "Port"; "Grid"
].

(** [array[Math.floor(random * array.length)]]: [None] is the
    [undefined] read outside the array. *)
Definition pick (array : list string) (random : Q) : option string :=
  let i := Qfloor (random * inject_Z (Z.of_nat (List.length array))) in
  if (i <? 0)%Z then None else nth_error array (Z.to_nat i).

(** A value inside a template literal. *)
Definition interpolate (v : option string) : string :=
  match v with
  | Some s => s
  | None => "undefined"
  end.

(** [function generateTokenName()], given the two values that
    [Math.random()] returns. *)
Definition generateTokenName (random1 random2 : Q) : string :=
  let prefix := pick TOKEN_PREFIXES random1 in
  let suffix := pick TOKEN_SUFFIXES random2 in
  interpolate prefix ++ " " ++ interpolate suffix.

(** [function generateTokenSymbol(name)]. *)
Definition generateTokenSymbol (name : string) : string :=
  let words := split " " name in
  if (List.length words =? 1)%nat then
    toUpperCase
      (substring name 0 (Z.min 4 (Z.of_nat (String.length name))))
  else
    let symbol := join "" (map first_char words) in
    let symbol :=
      if (String.length symbol <? 3)%nat then
        let lastWord := last_word words in
        symbol ++ substring lastWord 1 (4 - Z.of_nat (String.length symbol))
      else symbol in
    toUpperCase symbol.

(** The symbol of [name] is made of two or three upper-case letters. *)
Definition short_upper_symbol (name : string) : bool :=
  let symbol := generateTokenSymbol name in
  all_upper symbol &&
  (2 <=? String.length symbol)%nat && (String.length symbol <=? 3)%nat.

End TokenNames.

(** ** The private key file *)

Module PrivateKeys.
Import JsString JsText.
Local Open Scope string_scope.

(** The line feed that [split('\n')] cuts at. *)
Definition LF : ascii := ascii_of_nat 10.

(** The test of the [filter]: [line && !line.startsWith('#')]. *)
Definition is_key (line : string) : bool :=
  negb (String.eqb line "") && negb (startsWith line "#").

(** [content.split('\n').map(line => line.trim())
      .filter(line => line && !line.startsWith('#'))]. *)
Definition parsePrivateKeys (content : string) : list string :=
  filter is_key (map trim (split LF content)).

(** The check that follows in [main]: an empty list of keys is a fatal
    error. *)
Definition loadPrivateKeys (content : string) : string + list string :=
  let privateKeys := parsePrivateKeys content in
  if (List.length privateKeys =? 0)%nat
  then inl "No private keys found in pk.txt"
  else inr privateKeys.

(** The carriage return of a Windows line ending. *)
Definition CR : ascii := ascii_of_nat 13.

(** A line that holds no key: blank, or a comment. *)
Definition blank_or_comment (line : string) : Prop :=
  trim line = "" \/ startsWith (trim line) "#" = true.

(** A key as the file is meant to hold it: not empty, no white space at
    either end, no line feed inside, not a comment. *)
Definition clean_key (k : string) : bool :=
  is_key k && String.eqb (trim k) k && free_of LF k.

End PrivateKeys.

(** ** The countdown of [main] *)

Module Countdown.
Import JsString JsText.
Local Open Scope string_scope.
Local Open Scope Z_scope.

(** [n.toString()] for an integer [n]. *)
Definition toString (n : Z) : string :=
  DecimalString.NilZero.string_of_int (Z.to_int n).

(** The number a string of decimal digits denotes, if it is one. *)
Definition decimal_value (s : string) : option Z :=
  option_map Z.of_int (DecimalString.NilZero.int_of_string s).

(** [s.padStart(targetLength, fill)] for a filler of one character. *)
Definition padStart (s : string) (targetLength : nat) (fill : ascii) : string :=
  string_of_list_ascii (repeat fill (targetLength - String.length s)) ++ s.

(** [const HOURS_25 = 25 * 60 * 60]. *)
Definition HOURS_25 : Z := 25 * 60 * 60.

(** [const timeObj = { hours, minutes, seconds }]. *)
Record timeObj : Type := mkTimeObj {
  hours : string;
  minutes : string;
  seconds : string
}.

Definition timeObj_of (remainingTime : Z) : timeObj := {|
  hours := padStart (toString (remainingTime / 3600)) 2 "0";
  minutes := padStart (toString (Z.rem remainingTime 3600 / 60)) 2 "0";
  seconds := padStart (toString (Z.rem remainingTime 60)) 2 "0"
|}.

(** The text written after [Time Remaining: ]. *)
Definition clock (t : timeObj) : string :=
  hours t ++ ":" ++ minutes t ++ ":" ++ seconds t.

(** One firing of the interval callback: the new [remainingTime], the
    clock it writes, and whether it clears the interval and resolves. *)
Definition tick (remainingTime : Z) : Z * string * bool :=
  let remainingTime := remainingTime - 1 in
  (remainingTime, clock (timeObj_of remainingTime), remainingTime <=? 0).

(** The clocks written by at most [n] firings, and whether the promise has
    resolved by then; nothing fires once the interval is cleared. *)
Fixpoint fire (n : nat) (remainingTime : Z) : list string * bool :=
  match n with
  | O => ([], false)
  | Datatypes.S n' =>
      let '(remainingTime', text, resolved) := tick remainingTime in
      if resolved then ([text], true)
      else
        let '(texts, later) := fire n' remainingTime' in
        (text :: texts, later)
  end.

(** A field of the clock: two characters that read as the number [n]. *)
Definition two_digits (n : Z) : bool :=
  let field := padStart (toString n) 2 "0" in
  (String.length field =? 2)%nat &&
  match decimal_value field with
  | Some m => m =? n
  | None => false
  end.

End Countdown.

(** ** The wallet methods that nest one retry in another

    [selfTransfer] and [swapCBTCForUSDC] have one shape: inside
    [withRetry], a [try] submits a transaction and awaits
    [withRetry(() => tx.wait())]; the [catch] logs the error and throws it
    again.  The inner call runs on the world [W] of the ledger client and
    keeps its own trace; the outer call sees that state as its world. *)

Module Bot.
Import JsString JsNumber Policy Retry.

Section Methods.

(** Transactions, receipts, the error objects of the ledger client and its
    world. *)
Variables (Tx Receipt Err W : Type).
Variable message : Err -> option string.

(** The message of the [TypeError] that the engine raises. *)
Variable type_error_text : string.

(** [tx.wait()] and [logger.error(label, { error: error.message, ... })]. *)
Variable wait : Tx -> W -> (Receipt + Err) * W.
Variable logger_error : string -> option string -> W -> W.

(** The [message] of a value thrown by an inner [withRetry]. *)
Definition thrown_message (x : thrown Err) : option string :=
  match x with
  | ErrorValue e => message e
  | UndefinedValue => None
  | TypeError => Some type_error_text
  end.

(** [catch (error) { logger.error(label, { error: error.message, ... });
    throw error; }]: reading [message] off [undefined] raises instead. *)
Definition log_and_rethrow (label : string) (x : thrown Err) (w : W)
  : thrown Err * W :=
  match x with
  | UndefinedValue => (TypeError, w)
  | _ => (x, logger_error label (thrown_message x) w)
  end.

(** [await withRetry(async () => await tx.wait())]. *)
Definition confirm (tx : Tx) (st : state W) : run Receipt Err W :=
  withRetry message (wait tx) None st.

(** The operation handed to the outer [withRetry]:
    [try { const tx = await submit(); return await confirm(tx); }
     catch (error) { ... throw error; }]. *)
Definition submit_and_confirm (label : string) (submit : W -> (Tx + Err) * W)
  (st : state W) : (Receipt + thrown Err) * state W :=
  match submit (world st) with
  | (inr error, w) =>
      let '(x, w') := log_and_rethrow label (ErrorValue error) w in
      (inr x, mkState w' (trace st))
  | (inl tx, w) =>
      let r := confirm tx (mkState w (trace st)) in
      match result r with
      | Returned receipt => (inl receipt, final r)
      | Threw error =>
          let '(x, w') := log_and_rethrow label error (world (final r)) in
          (inr x, mkState w' (trace (final r)))
      end
  end.

(** [return withRetry(async () => { try { ... } catch { ... } })]. *)
Definition retried_transaction (label : string) (submit : W -> (Tx + Err) * W)
  (st : state (state W)) : run Receipt (thrown Err) (state W) :=
  withRetry thrown_message (submit_and_confirm label submit) None st.

(** [async selfTransfer(amount)]: the submission is
    [this.wallet.sendTransaction({ ..., value: parseEther(amount) })]. *)
Definition selfTransfer (Amount : Type)
  (sendTransaction : Amount -> W -> (Tx + Err) * W) (amount : Amount) :=
  retried_transaction "Self transfer failed" (sendTransaction amount).

(** [async swapCBTCForUSDC(amountIn)]: the submission is
    [this.router.swapExactETHForTokens(...)]. *)
Definition swapCBTCForUSDC (Amount : Type)
  (swapExactETHForTokens : Amount -> W -> (Tx + Err) * W) (amountIn : Amount) :=
  retried_transaction "CBTC to USDC swap failed" (swapExactETHForTokens amountIn).

(** The operation of [swapUSDCForCBTC]:
    [try { const approveTx = await USDC.approve(...);
           await withRetry(async () => await approveTx.wait());
           const tx = await this.router.swapExactTokensForETH(...);
           return await withRetry(async () => await tx.wait()); }
     catch (error) { ... throw error; }]. *)
Definition approve_and_swap (label : string)
  (approve swapExactTokensForETH : W -> (Tx + Err) * W)
  (st : state W) : (Receipt + thrown Err) * state W :=
  let failed := fun (error : thrown Err) (st : state W) =>
    let '(x, w') := log_and_rethrow label error (world st) in
    (inr x, mkState w' (trace st)) in
  match approve (world st) with
  | (inr error, w) => failed (ErrorValue error) (mkState w (trace st))
  | (inl approveTx, w) =>
      let approved := confirm approveTx (mkState w (trace st)) in
      match result approved with
      | Threw error => failed error (final approved)
      | Returned _ =>
          match swapExactTokensForETH (world (final approved)) with
          | (inr error, w) =>
              failed (ErrorValue error) (mkState w (trace (final approved)))
          | (inl tx, w) =>
              let r := confirm tx (mkState w (trace (final approved))) in
              match result r with
              | Returned receipt => (inl receipt, final r)
              | Threw error => failed error (final r)
              end
          end
      end
  end.

(** [async swapUSDCForCBTC(amountIn)]. *)
Definition swapUSDCForCBTC (Amount : Type)
  (approve swapExactTokensForETH : Amount -> W -> (Tx + Err) * W)
  (amountIn : Amount) (st : state (state W))
  : run Receipt (thrown Err) (state W) :=
  withRetry thrown_message
    (approve_and_swap "USDC to CBTC swap failed"
                      (approve amountIn) (swapExactTokensForETH amountIn))
    None st.

(** The state a wallet method is called in: nothing has happened in
    either retry. *)
Definition fresh (w : W) : state (state W) := initial (initial w).

(** A delay of the default policy: one second or two. *)
Definition default_delay (ms : value) : Prop :=
  ms = Some (of_Z 1000) \/ ms = Some (of_Z 2000).

(** The inner trace has grown from [st] to [st'] by at most [c] waits and
    [k] sleeps, all of them delays of the default policy. *)
Definition grown (c k : nat) (st st' : state W) : Prop :=
  (calls (trace st') <= calls (trace st) + c)%nat /\
  (List.length (sleeps (trace st')) <= List.length (sleeps (trace st)) + k)%nat /\
  (Forall default_delay (sleeps (trace st)) ->
   Forall default_delay (sleeps (trace st'))).

End Methods.

End Bot.

(** ** The contracts the bot deploys

    A [uint256] and an [address] are integers ([Z]) in their ranges; a
    [mapping] is a total function whose default is zero; a call either
    succeeds, reverts with the reason of a [require], or panics on an
    arithmetic overflow, and a call that does not succeed leaves the
    storage as it was. *)

Module Solidity.
Local Open Scope Z_scope.

Definition MAX_UINT256 : Z := 2 ^ 256 - 1.

(** A value of type [uint256], a value of type [address]. *)
Definition is_uint256 (n : Z) : Prop := 0 <= n <= MAX_UINT256.
Definition is_address (a : Z) : Prop := 0 <= a < 2 ^ 160.

Inductive outcome (A : Type) : Type :=
| Ok (a : A)
| Revert (reason : string)
| Panic (code : Z).

Arguments Ok {A} a.
Arguments Revert {A} reason.
Arguments Panic {A} code.

(** [m[key] = v] on a mapping. *)
Definition store {V : Type} (m : Z -> V) (key : Z) (v : V) : Z -> V :=
  fun k => if k =? key then v else m k.

(** Checked [a + b] and [a - b] of Solidity 0.8: panic code 0x11. *)
Definition checked_add (a b : Z) : outcome Z :=
  if a + b <=? MAX_UINT256 then Ok (a + b) else Panic 17.

Definition checked_sub (a b : Z) : outcome Z :=
  if b <=? a then Ok (a - b) else Panic 17.

End Solidity.

(** *** [contract NFTMinter] *)

Module NFTMinter.
Import Solidity.
Local Open Scope Z_scope.

Record storage : Type := mkStorage {
  _tokenCount : Z -> Z;
  _tokenOwners : Z -> Z;
  _tokenURIs : Z -> string
}.

(** The storage of a freshly deployed contract. *)
Definition deployed : storage :=
  mkStorage (fun _ => 0) (fun _ => 0) (fun _ => EmptyString).

Inductive log : Type :=
| NFTMinted (owner tokenId : Z)
| Transfer (from to tokenId : Z).

(** [function mint() public]. *)
Definition mint (sender : Z) (s : storage) : outcome (storage * list log) :=
  let tokenId := _tokenCount s sender in
  match checked_add (_tokenCount s sender) 1 with
  | Ok count =>
      let s := mkStorage (store (_tokenCount s) sender count)
                         (_tokenOwners s) (_tokenURIs s) in
      let s := mkStorage (_tokenCount s)
                         (store (_tokenOwners s) tokenId sender)
                         (_tokenURIs s) in
      Ok (s, [NFTMinted sender tokenId; Transfer 0 sender tokenId])
  | Revert reason => Revert reason
  | Panic code => Panic code
  end.

(** [function ownerOf(uint256 tokenId) public view]. *)
Definition ownerOf (tokenId : Z) (s : storage) : outcome Z :=
  let owner := _tokenOwners s tokenId in
  if owner =? 0 then Revert "Token does not exist"%string else Ok owner.

(** [function getTokenCount(address owner) public view]. *)
Definition getTokenCount (owner : Z) (s : storage) : outcome Z :=
  Ok (_tokenCount s owner).

(** [function setTokenURI(uint256 tokenId, string memory uri) public]. *)
Definition setTokenURI (sender tokenId : Z) (uri : string) (s : storage)
  : outcome (storage * list log) :=
  if _tokenOwners s tokenId =? sender
  then Ok (mkStorage (_tokenCount s) (_tokenOwners s)
                     (store (_tokenURIs s) tokenId uri), [])
  else Revert "Not token owner"%string.

(** [function tokenURI(uint256 tokenId) public view]. *)
Definition tokenURI (tokenId : Z) (s : storage) : outcome string :=
  if _tokenOwners s tokenId =? 0 then Revert "Token does not exist"%string
  else Ok (_tokenURIs s tokenId).

(** A transaction sent to the contract: what it calls.  Its sender is an
    address other than zero, its arguments are of their Solidity types. *)
Inductive call : Type :=
| Mint
| SetTokenURI (tokenId : Z) (uri : string).

Definition well_formed (sender : Z) (c : call) : Prop :=
  is_address sender /\ sender <> 0 /\
  match c with
  | Mint => True
  | SetTokenURI tokenId _ => is_uint256 tokenId
  end.

(** The storage after a transaction: unchanged when it does not
    succeed. *)
Definition execute (sender : Z) (c : call) (s : storage) : storage :=
  let r := match c with
           | Mint => mint sender s
           | SetTokenURI tokenId uri => setTokenURI sender tokenId uri s
           end in
  match r with
  | Ok (s', _) => s'
  | _ => s
  end.

(** The storages the contract can reach from its deployment. *)
Inductive reachable : storage -> Prop :=
| reach_deployed : reachable deployed
| reach_step sender c s :
    reachable s -> well_formed sender c -> reachable (execute sender c s).

End NFTMinter.

(** *** [contract SimpleSwap]

    The tokens are external contracts.  Their ledger is a world [L] of its
    own: a call of [transferFrom], [transfer] or [balanceOf] answers, or
    reverts ([None]), and moves the ledger on; it is taken not to call
    back into the swap contract. *)

Module SimpleSwap.
Import Solidity.
Local Open Scope Z_scope.

Inductive log : Type :=
| Swap (sender tokenIn tokenOut amountIn amountOut : Z)
| LiquidityAdded (provider token amount : Z)
| LiquidityRemoved (provider token amount : Z).

Section Contract.

Variable L : Type.

(** [IERC20(token).transferFrom(sender, recipient, amount)], called by
    the contract [caller]. *)
Variable transferFrom : forall (token caller sender recipient amount : Z),
    L -> option (bool * L).

(** [IERC20(token).transfer(recipient, amount)], called by [caller]. *)
Variable transfer : forall (token caller recipient amount : Z),
    L -> option (bool * L).

(** [IERC20(token).balanceOf(account)]. *)
Variable balanceOf : forall (token account : Z), L -> option Z.

(** [address(this)]. *)
Variable this : Z.

(** [mapping(address => uint256) public liquidityBalance], together with
    the ledger of the tokens. *)
Record state : Type := mkState {
  liquidityBalance : Z -> Z;
  ledger : L
}.

(** [require(call, reason)] on the boolean an external call returns; a
    revert of the call itself has no reason of this contract. *)
Definition require_call (answer : option (bool * L)) (reason : string)
  : outcome L :=
  match answer with
  | None => Revert ""
  | Some (false, _) => Revert reason
  | Some (true, l) => Ok l
  end.

(** [function addLiquidity(address token, uint256 amount) external]. *)
Definition addLiquidity (sender token amount : Z) (s : state)
  : outcome (state * list log) :=
  match require_call (transferFrom token this sender this amount (ledger s))
                     "Transfer failed" with
  | Ok l =>
      match checked_add (liquidityBalance s token) amount with
      | Ok balance =>
          Ok (mkState (store (liquidityBalance s) token balance) l,
              [LiquidityAdded sender token amount])
      | Revert reason => Revert reason
      | Panic code => Panic code
      end
  | Revert reason => Revert reason
  | Panic code => Panic code
  end.

(** [function removeLiquidity(address token, uint256 amount) external]. *)
Definition removeLiquidity (sender token amount : Z) (s : state)
  : outcome (state * list log) :=
  if liquidityBalance s token >=? amount then
    match checked_sub (liquidityBalance s token) amount with
    | Ok balance =>
        match require_call (transfer token this sender amount (ledger s))
                           "Transfer failed" with
        | Ok l =>
            Ok (mkState (store (liquidityBalance s) token balance) l,
                [LiquidityRemoved sender token amount])
        | Revert reason => Revert reason
        | Panic code => Panic code
        end
    | Revert reason => Revert reason
    | Panic code => Panic code
    end
  else Revert "Insufficient liquidity".

(** [function swap(address tokenIn, address tokenOut, uint256 amountIn,
    uint256 amountOutMin) external]. *)
Definition swap (sender tokenIn tokenOut amountIn amountOutMin : Z) (s : state)
  : outcome (state * list log) :=
  match require_call (transferFrom tokenIn this sender this amountIn (ledger s))
                     "Transfer in failed" with
  | Ok l =>
      let amountOut := amountIn in
      if amountOut >=? amountOutMin then
        match require_call (transfer tokenOut this sender amountOut l)
                           "Transfer out failed" with
        | Ok l' =>
            Ok (mkState (liquidityBalance s) l',
                [Swap sender tokenIn tokenOut amountIn amountOut])
        | Revert reason => Revert reason
        | Panic code => Panic code
        end
      else Revert "Insufficient output amount"
  | Revert reason => Revert reason
  | Panic code => Panic code
  end.

(** [function getBalance(address token) external view]. *)
Definition getBalance (token : Z) (s : state) : outcome Z :=
  match balanceOf token this (ledger s) with
  | Some balance => Ok balance
  | None => Revert ""
  end.

(** A transaction sent to the contract. *)
Inductive call : Type :=
| AddLiquidity (token amount : Z)
| RemoveLiquidity (token amount : Z)
| DoSwap (tokenIn tokenOut amountIn amountOutMin : Z).

Definition well_formed (c : call) : Prop :=
  match c with
  | AddLiquidity _ amount => is_uint256 amount
  | RemoveLiquidity _ amount => is_uint256 amount
  | DoSwap _ _ amountIn amountOutMin =>
      is_uint256 amountIn /\ is_uint256 amountOutMin
  end.

Definition run_call (sender : Z) (c : call) (s : state)
  : outcome (state * list log) :=
  match c with
  | AddLiquidity token amount => addLiquidity sender token amount s
  | RemoveLiquidity token amount => removeLiquidity sender token amount s
  | DoSwap tokenIn tokenOut amountIn amountOutMin =>
      swap sender tokenIn tokenOut amountIn amountOutMin s
  end.

(** The state and the event log after a transaction: both unchanged when
    it does not succeed. *)
Definition execute (sender : Z) (c : call) (sl : state * list log)
  : state * list log :=
  match run_call sender c (fst sl) with
  | Ok (s', events) => (s', snd sl ++ events)
  | _ => sl
  end.

(** The states, with their event logs, that the contract can reach from
    its deployment on the ledger [l0]. *)
Inductive reachable (l0 : L) : state * list log -> Prop :=
| reach_deployed : reachable l0 (mkState (fun _ => 0) l0, [])
| reach_step sender c sl :
    reachable l0 sl -> well_formed c -> reachable l0 (execute sender c sl).

(** The liquidity of [token] that the event log accounts for: what was
    added less what was removed. *)
Fixpoint logged_liquidity (token : Z) (events : list log) : Z :=
  match events with
  | [] => 0
  | LiquidityAdded _ t amount :: rest =>
      (if t =? token then amount else 0) + logged_liquidity token rest
  | LiquidityRemoved _ t amount :: rest =>
      logged_liquidity token rest - (if t =? token then amount else 0)
  | Swap _ _ _ _ _ :: rest => logged_liquidity token rest
  end.

End Contract.

End SimpleSwap.

(** ** More concrete instances *)

Module MoreInstances.
Import JsNumber Policy Retry Solidity.
Local Open Scope string_scope.

(** [{ maxAttempts: 2.5, initialDelay: 1000, maxDelay: 10000,
    backoffFactor: 2 }]. *)
Definition fractional_budget : policy :=
  mkPolicy (Some (Fin (5 # 2))) (Some (of_Z 1000)) (Some (of_Z 10000))
           (Some (of_Z 2)).

(** A ledger client whose world counts the requests made: submissions
    are accepted or refused, confirmations arrive or time out. *)
Definition submit_accepted (w : nat) : (nat + string) * nat :=
  (inl w, Datatypes.S w).

Definition submit_reverted (w : nat) : (nat + string) * nat :=
  (inr "execution reverted", Datatypes.S w).

Definition wait_confirmed (tx w : nat) : (nat + string) * nat :=
  (inl tx, Datatypes.S w).

Definition wait_timeout (tx w : nat) : (nat + string) * nat :=
  (inr "timeout", Datatypes.S w).

(** A client whose transactions are approvals ([true]) and swaps
    ([false]): an approval is confirmed at once, a swap never. *)
Definition approve_accepted (w : nat) : (bool + string) * nat :=
  (inl true, Datatypes.S w).

Definition swap_accepted (w : nat) : (bool + string) * nat :=
  (inl false, Datatypes.S w).

Definition wait_for_approval_only (tx : bool) (w : nat) : (nat + string) * nat :=
  if tx then (inl w, Datatypes.S w) else (inr "timeout", Datatypes.S w).

(** A logger that leaves the world of the ledger client alone. *)
Definition quiet_logger (label : string) (error : option string) (w : nat) : nat :=
  w.

(** The text of the engine's [TypeError]. *)
Definition v8_type_error : string :=
  "Cannot read properties of undefined (reading 'toLowerCase')".

(** A token ledger that accepts every transfer and records it as
    (token, from, to, amount). *)
Definition journal : Type := list (Z * Z * Z * Z).

Definition journal_transferFrom (token caller sender recipient amount : Z)
  (l : journal) : option (bool * journal) :=
  Some (true, (l ++ [(token, sender, recipient, amount)])%list).

Definition journal_transfer (token caller recipient amount : Z) (l : journal)
  : option (bool * journal) :=
  Some (true, (l ++ [(token, caller, recipient, amount)])%list).

End MoreInstances.

(** * Properties *)

Unset Implicit Arguments.

(** ** Substring search and lower-casing *)

Module JsStringFacts.
Import JsString.
Local Open Scope string_scope.

Lemma startsWith_spec s p :
  startsWith s p = true <-> exists post, s = p ++ post.
Proof.
  revert s; induction p as [|a p IH]; intros s; simpl.
  - split; [intros _; now exists s | reflexivity].
  - destruct s as [|b s].
    + split; [discriminate | intros [post H]; discriminate].
    + rewrite andb_true_iff, Ascii.eqb_eq, IH. split.
      * intros [-> [post ->]]. now exists post.
      * intros [post H]. injection H as -> ->. split; [reflexivity | now exists post].
Qed.

Lemma includes_spec s sub :
  includes s sub = true <-> occurs_in sub s.
Proof.
  unfold occurs_in. induction s as [|c s IH].
  - simpl. rewrite orb_false_r, startsWith_spec. split.
    + intros [post H]. exists "", post. exact H.
    + intros [pre [post H]]. destruct pre; [now exists post | discriminate].
  - cbn [includes]. rewrite orb_true_iff, IH, startsWith_spec. split.
    + intros [[post H] | [pre [post H]]].
      * exists "", post. exact H.
      * exists (String c pre), post. simpl. now rewrite H.
    + intros [pre [post H]]. destruct pre as [|c' pre].
      * left. now exists post.
      * right. simpl in H. injection H as _ H. now exists pre, post.
Qed.

Lemma lower_ascii_idem c : lower_ascii (lower_ascii c) = lower_ascii c.
Proof.
  destruct c as [[] [] [] [] [] [] [] []]; reflexivity.
Qed.

Lemma toLowerCase_idem s : toLowerCase (toLowerCase s) = toLowerCase s.
Proof.
  induction s as [|c s IH]; simpl; [reflexivity|].
  now rewrite lower_ascii_idem, IH.
Qed.

End JsStringFacts.

(** ** The loop of [withRetry], one iteration at a time *)

Module LoopFacts.
Import JsString JsNumber Policy Retry.
Local Open Scope Z_scope.

Section Steps.

Variables (T Err S : Type).
Variable message : Err -> option string.
Variable operation : S -> (T + Err) * S.
Variable p : policy.

Local Notation "'LOOP'" :=
  (loop message operation (maxAttempts p) (maxDelay p) (backoffFactor p)).
Local Notation "'BODY'" :=
  (body message operation (maxAttempts p) (maxDelay p) (backoffFactor p)).
Local Notation "'CLASSIFY'" := (isRetryableError message).

Lemma loop_unfold a d e st :
  LOOP a d e st =
  if in_budget p a then
    match BODY a d st with
    | Done r => r
    | Again d' e' st' => LOOP (a + 1) d' e' st'
    end
  else mkRun ThrowAfterLoop (throw_last T e) st.
Proof.
  unfold in_budget.
  funelim (LOOP a d e st);
    match goal with
    | H : le _ _ = _ |- _ => rewrite H
    end; try reflexivity;
    match goal with
    | H : body _ _ _ _ _ _ _ _ = _ |- _ => rewrite H
    end; reflexivity.
Qed.

Lemma loop_exit a d e st :
  in_budget p a = false ->
  LOOP a d e st = mkRun ThrowAfterLoop (throw_last T e) st.
Proof. intros H. rewrite loop_unfold, H. reflexivity. Qed.

Lemma loop_return a d e st v w :
  in_budget p a = true ->
  operation (world st) = (inl v, w) ->
  LOOP a d e st = mkRun ReturnInTry (Returned v) (mkState w (trace st ++ [Call])).
Proof.
  intros H Hop. rewrite loop_unfold, H. unfold body. simpl.
  rewrite Hop. reflexivity.
Qed.

Lemma loop_classifier_raises a d e st err w x :
  in_budget p a = true ->
  operation (world st) = (inr err, w) ->
  CLASSIFY err = Threw x ->
  LOOP a d e st = mkRun ClassifierRaised (Threw x) (mkState w (trace st ++ [Call])).
Proof.
  intros H Hop Hc. rewrite loop_unfold, H. unfold body. simpl.
  rewrite Hop, Hc. reflexivity.
Qed.

Lemma loop_rethrow a d e st err w retryable :
  in_budget p a = true ->
  operation (world st) = (inr err, w) ->
  CLASSIFY err = Returned retryable ->
  negb retryable || strict_eq (of_Z a) (maxAttempts p) = true ->
  LOOP a d e st =
  mkRun ThrowInCatch (Threw (ErrorValue err)) (mkState w (trace st ++ [Call])).
Proof.
  intros H Hop Hc Hstop. rewrite loop_unfold, H. unfold body, emit.
  cbn [world trace]. rewrite Hop, Hc, Hstop. reflexivity.
Qed.

Lemma loop_retry a d e st err w :
  in_budget p a = true ->
  operation (world st) = (inr err, w) ->
  CLASSIFY err = Returned true ->
  strict_eq (of_Z a) (maxAttempts p) = false ->
  LOOP a d e st =
  LOOP (a + 1) (next_delay p d) (Some err)
       (mkState w (trace st ++ retry_events message p a d err)).
Proof.
  intros H Hop Hc Hne. rewrite loop_unfold, H. unfold body, emit.
  cbn [world trace]. rewrite Hop, Hc, Hne. cbn [negb orb].
  unfold retry_events, next_delay. rewrite <- !app_assoc. reflexivity.
Qed.

(** Induction on the iterations of the loop: a property of every run
    follows from the five ways an iteration can go. *)
Lemma loop_induction (P : Z -> value -> option Err -> state S -> run T Err S -> Prop) :
  (forall a d e st,
      in_budget p a = false ->
      P a d e st (mkRun ThrowAfterLoop (throw_last T e) st)) ->
  (forall a d e st v w,
      in_budget p a = true ->
      operation (world st) = (inl v, w) ->
      P a d e st (mkRun ReturnInTry (Returned v) (mkState w (trace st ++ [Call])))) ->
  (forall a d e st err w x,
      in_budget p a = true ->
      operation (world st) = (inr err, w) ->
      CLASSIFY err = Threw x ->
      P a d e st (mkRun ClassifierRaised (Threw x) (mkState w (trace st ++ [Call])))) ->
  (forall a d e st err w retryable,
      in_budget p a = true ->
      operation (world st) = (inr err, w) ->
      CLASSIFY err = Returned retryable ->
      negb retryable || strict_eq (of_Z a) (maxAttempts p) = true ->
      P a d e st (mkRun ThrowInCatch (Threw (ErrorValue err))
                        (mkState w (trace st ++ [Call])))) ->
  (forall a d e st err w r,
      in_budget p a = true ->
      operation (world st) = (inr err, w) ->
      CLASSIFY err = Returned true ->
      strict_eq (of_Z a) (maxAttempts p) = false ->
      P (a + 1) (next_delay p d) (Some err)
        (mkState w (trace st ++ retry_events message p a d err)) r ->
      P a d e st r) ->
  forall a d e st, P a d e st (LOOP a d e st).
Proof.
  intros Hexit Hret Hcls Hthrow Hretry a.
  remember (trips (maxAttempts p) a) as n eqn:Hn.
  revert a Hn. induction n as [n IH] using lt_wf_ind. intros a Hn d e st.
  destruct (in_budget p a) eqn:Hb.
  - destruct (operation (world st)) as [[v|err] w] eqn:Hop.
    + rewrite (loop_return a d e st v w Hb Hop). now apply Hret.
    + destruct (CLASSIFY err) as [retryable|x] eqn:Hc.
      * destruct (negb retryable || strict_eq (of_Z a) (maxAttempts p)) eqn:Hs.
        -- rewrite (loop_rethrow a d e st err w retryable Hb Hop Hc Hs). now apply (Hthrow a d e st err w retryable).
        -- apply orb_false_iff in Hs. destruct Hs as [Hr Hs].
           apply negb_false_iff in Hr. subst retryable.
           rewrite (loop_retry a d e st err w Hb Hop Hc Hs).
           apply (Hretry a d e st err w); try assumption.
           apply (IH (trips (maxAttempts p) (a + 1))); [|reflexivity].
           subst n. now apply le_trips_decrease.
      * rewrite (loop_classifier_raises a d e st err w x Hb Hop Hc). now apply (Hcls a d e st err w x).
  - rewrite (loop_exit a d e st Hb). now apply Hexit.
Qed.

End Steps.

End LoopFacts.

(** ** The backoff schedule *)

Module BackoffFacts.
Import JsString JsNumber Policy Retry LoopFacts.
Local Open Scope Z_scope.

Lemma calls_app (l l' : list event) : calls (l ++ l') = (calls l + calls l')%nat.
Proof.
  induction l as [|[| |] l IH]; simpl; auto.
Qed.

Lemma sleeps_app (l l' : list event) : sleeps (l ++ l') = sleeps l ++ sleeps l'.
Proof.
  induction l as [|[| |] l IH]; simpl; auto. now rewrite IH.
Qed.

Section Schedule.

Variables (T Err S : Type).
Variable message : Err -> option string.
Variable operation : S -> (T + Err) * S.
Variable p : policy.

(** The delays slept by the loop are the first values of the schedule
    that starts at the current [delay]. *)
Lemma loop_sleeps a d e st :
  exists k,
    sleeps (trace (final (loop message operation (maxAttempts p) (maxDelay p)
                               (backoffFactor p) a d e st)))
    = sleeps (trace st) ++ schedule p k d.
Proof.
  apply (loop_induction T Err S message operation p
           (fun _ d _ st r =>
              exists k, sleeps (trace (final r)) = sleeps (trace st) ++ schedule p k d));
    clear a d e st.
  - intros a d e st _. exists O. simpl. now rewrite app_nil_r.
  - intros a d e st v w _ _. exists O. simpl. now rewrite sleeps_app.
  - intros a d e st err w x _ _ _. exists O. simpl. now rewrite sleeps_app.
  - intros a d e st err w b _ _ _ _. exists O. simpl. now rewrite sleeps_app.
  - intros a d e st err w r _ _ _ _ [k Hk]. exists (Datatypes.S k).
    rewrite Hk. simpl. rewrite sleeps_app. simpl. now rewrite <- app_assoc.
Qed.

End Schedule.

Section Numeric.

Variable p : policy.
Variables dmax f : Q.
Hypothesis Hmax : maxDelay p = Some (Fin dmax).
Hypothesis Hfactor : backoffFactor p = Some (Fin f).

Lemma next_delay_numeric (d : Q) :
  next_delay p (Some (Fin d)) =
  Some (Fin (if Qle_bool (d * f) dmax then d * f else dmax)%Q).
Proof.
  unfold next_delay. rewrite Hmax, Hfactor. simpl.
  now destruct (Qle_bool (d * f) dmax).
Qed.

(** From the second delay on, every value of the schedule is capped. *)
Lemma schedule_tail_capped k (d : Q) :
  Forall (fun ms => num_le (ToNumber ms) (Fin dmax))
         (schedule p k (next_delay p (Some (Fin d)))).
Proof.
  revert d. induction k as [|k IH]; intros d; simpl; [constructor|].
  rewrite !next_delay_numeric. constructor.
  - simpl. destruct (Qle_bool (d * f) dmax) eqn:E.
    + now apply Qle_bool_iff.
    + apply Qle_refl.
  - rewrite <- next_delay_numeric. apply IH.
Qed.

Hypothesis Hgrow : (1 < f)%Q.


End Numeric.

End BackoffFacts.

(** ** Runs under an integer attempt budget *)

Module BudgetFacts.
Import JsString JsNumber Policy Retry LoopFacts BackoffFacts.
Local Open Scope Z_scope.

Lemma le_of_Z (a n : Z) : le (of_Z a) (of_Z n) = true <-> a <= n.
Proof.
  unfold le, of_Z. rewrite Qle_bool_iff, <- Zle_Qle. reflexivity.
Qed.

Lemma strict_eq_of_Z (a n : Z) : strict_eq (of_Z a) (Some (of_Z n)) = true <-> a = n.
Proof.
  unfold strict_eq, of_Z. rewrite Qeq_bool_iff. unfold Qeq. simpl. lia.
Qed.

Lemma le_Fin_of_Z (a : Z) (q : Q) : le (of_Z a) (Fin q) = true <-> (inject_Z a <= q)%Q.
Proof.
  unfold le, of_Z. apply Qle_bool_iff.
Qed.

Lemma outcome_succ {T Err S : Type} (operation : S -> (T + Err) * S) k w :
  outcome operation (Datatypes.S k) w = outcome operation k (snd (operation w)).
Proof. reflexivity. Qed.

Section Budget.

Variables (T Err S : Type).
Variable message : Err -> option string.
Variable operation : S -> (T + Err) * S.
Variable p : policy.
Variable n : Z.
Hypothesis Hbudget : maxAttempts p = Some (of_Z n).

Lemma in_budget_iff a : in_budget p a = true <-> a <= n.
Proof. unfold in_budget. rewrite Hbudget. apply le_of_Z. Qed.

Lemma last_attempt_iff a : strict_eq (of_Z a) (maxAttempts p) = true <-> a = n.
Proof. rewrite Hbudget. apply strict_eq_of_Z. Qed.

(** A run that enters the loop at counter [a <= n] makes [k + 1]
    invocations for some [k]: the first [k] fail with retryable errors, and
    invocation [k + 1] decides the run. *)
Lemma run_characterisation a d e st :
  a <= n ->
  let r := loop message operation (maxAttempts p) (maxDelay p) (backoffFactor p)
                a d e st in
  exists k : nat,
    a + Z.of_nat k <= n /\
    (forall j, (j < k)%nat ->
       exists err, outcome operation j (world st) = inr err /\
                   isRetryableError message err = Returned true) /\
    world (final r) = world_after operation (Datatypes.S k) (world st) /\
    calls (trace (final r)) = (calls (trace st) + Datatypes.S k)%nat /\
    match outcome operation k (world st) with
    | inl v => result r = Returned v /\ exit r = ReturnInTry
    | inr err =>
        match isRetryableError message err with
        | Threw x => result r = Threw x /\ exit r = ClassifierRaised
        | Returned retryable =>
            result r = Threw (ErrorValue err) /\ exit r = ThrowInCatch /\
            (a + Z.of_nat k = n \/ retryable = false)
        end
    end.
Proof.
  cbv zeta.
  apply (loop_induction T Err S message operation p
    (fun a _ _ st r =>
       a <= n ->
       exists k : nat,
         a + Z.of_nat k <= n /\
         (forall j, (j < k)%nat ->
            exists err, outcome operation j (world st) = inr err /\
                        isRetryableError message err = Returned true) /\
         world (final r) = world_after operation (Datatypes.S k) (world st) /\
         calls (trace (final r)) = (calls (trace st) + Datatypes.S k)%nat /\
         match outcome operation k (world st) with
         | inl v => result r = Returned v /\ exit r = ReturnInTry
         | inr err =>
             match isRetryableError message err with
             | Threw x => result r = Threw x /\ exit r = ClassifierRaised
             | Returned retryable =>
                 result r = Threw (ErrorValue err) /\ exit r = ThrowInCatch /\
                 (a + Z.of_nat k = n \/ retryable = false)
             end
         end)); clear a d e st.
  - intros a d e st Hb Ha. apply in_budget_iff in Ha. congruence.
  - intros a d e st v w _ Hop Ha. exists O.
    unfold outcome. simpl. rewrite Hop, calls_app. simpl.
    repeat split; try lia; try (intros j Hj; lia).
  - intros a d e st err w x _ Hop Hc Ha. exists O.
    unfold outcome. simpl. rewrite Hop, calls_app. simpl. rewrite Hc.
    repeat split; try lia; try (intros j Hj; lia).
  - intros a d e st err w b _ Hop Hc Hstop Ha. exists O.
    unfold outcome. simpl. rewrite Hop, calls_app. simpl. rewrite Hc.
    repeat split; try lia; try (intros j Hj; lia).
    apply orb_true_iff in Hstop. destruct Hstop as [Hstop|Hstop].
    + right. now destruct b.
    + left. apply last_attempt_iff in Hstop. lia.
  - intros a d e st err w r _ Hop Hc Hne IH Ha.
    assert (Hlt : a + 1 <= n).
    { destruct (Z.eq_dec a n) as [Heq|Hneq]; [|lia].
      apply last_attempt_iff in Heq. congruence. }
    destruct (IH Hlt) as (k & Hk & Hpre & Hw & Hcalls & Hlast).
    cbn [world trace] in Hpre, Hw, Hcalls, Hlast.
    exists (Datatypes.S k). repeat split.
    + lia.
    + intros [|j] Hj.
      * exists err. unfold outcome. simpl. rewrite Hop. now split.
      * rewrite outcome_succ, Hop. apply Hpre. lia.
    + rewrite Hw. cbn [world_after]. now rewrite Hop.
    + rewrite Hcalls, calls_app. simpl. lia.
    + rewrite outcome_succ, Hop. cbn [snd].
      destruct (outcome operation k w) as [v|err']; [exact Hlast|].
      destruct (isRetryableError message err') as [b|x]; [|exact Hlast].
      destruct Hlast as (H1 & H2 & [H3|H3]); repeat split; try assumption;
        [left; lia | now right].
Qed.

End Budget.

End BudgetFacts.

(** ** The error classifier *)

Module ClassifierSpec.
Import JsString JsStringFacts JsNumber Policy Retry.
Local Open Scope string_scope.

(** The list of the source, lower-cased as the classifier does before it
    compares, is the set of the specification. *)
Lemma lowered_retryableErrors :
  map toLowerCase retryableErrors = RetryableErrorSet.
Proof. reflexivity. Qed.

Section Classifier.

Variable Err : Type.
Variable message : Err -> option string.

Lemma classify_message error m :
  message error = Some m ->
  isRetryableError message error =
  Returned (existsb (includes (toLowerCase m)) RetryableErrorSet).
Proof.
  intros Hm. unfold isRetryableError. rewrite Hm. reflexivity.
Qed.

Lemma classify_true_iff error m :
  message error = Some m ->
  isRetryableError message error = Returned true <->
  exists member, In member RetryableErrorSet /\ occurs_in member (toLowerCase m).
Proof.
  intros Hm. rewrite (classify_message error m Hm). split.
  - intros H. injection H as H.
    change (existsb (includes (toLowerCase m)) RetryableErrorSet = true) in H.
    apply existsb_exists in H.
    destruct H as [x [Hin Hx]]. exists x. split; [exact Hin|].
    now apply includes_spec.
  - intros [x [Hin Hx]]. f_equal. apply existsb_exists. exists x.
    split; [exact Hin|]. now apply includes_spec.
Qed.

End Classifier.

(** C3. An error whose lower-cased message contains a member of the
    retryable set as a substring is classified retryable, an error whose
    lower-cased message contains none is classified not retryable; only the
    lower-cased message counts, the members of the list are lower-cased
    before the comparison, and the messages [Network Error] and
    [NETWORK ERROR] are both retryable. *)
Theorem isRetryableError_substring_match :
  forall (Err : Type) (message : Err -> option string) (error : Err) (m : string),
    message error = Some m ->
    ((exists member, In member RetryableErrorSet /\
                     occurs_in member (toLowerCase m)) ->
     isRetryableError message error = Returned true) /\
    ((forall member, In member RetryableErrorSet ->
                     ~ occurs_in member (toLowerCase m)) ->
     isRetryableError message error = Returned false) /\
    (forall (error' : Err) (m' : string),
        message error' = Some m' ->
        toLowerCase m' = toLowerCase m ->
        isRetryableError message error' = isRetryableError message error) /\
    map toLowerCase retryableErrors = RetryableErrorSet /\
    (m = "Network Error" \/ m = "NETWORK ERROR" ->
     isRetryableError message error = Returned true).
Proof.
  intros Err message error m Hm. repeat split.
  - intros H. now apply (classify_true_iff Err message error m Hm).
  - intros Hnone. rewrite (classify_message Err message error m Hm). f_equal.
    destruct (existsb (includes (toLowerCase m)) RetryableErrorSet) eqn:E;
      [|reflexivity].
    apply existsb_exists in E. destruct E as [x [Hin Hx]].
    apply includes_spec in Hx. now destruct (Hnone x Hin).
  - intros error' m' Hm' Hlow.
    rewrite (classify_message Err message error m Hm).
    rewrite (classify_message Err message error' m' Hm'). now rewrite Hlow.
  - intros [-> | ->]; rewrite (classify_message Err message error _ Hm);
      reflexivity.
Qed.

Lemma isRetryableError_substring_match_witness :
  Instances.message_of "Internal JSON-RPC Error: Timeout" =
    Some "Internal JSON-RPC Error: Timeout" /\
  isRetryableError Instances.message_of "Internal JSON-RPC Error: Timeout" =
    Returned true.
Proof.
  split; [reflexivity|].
  apply (proj1 (isRetryableError_substring_match string Instances.message_of
                  "Internal JSON-RPC Error: Timeout"
                  "Internal JSON-RPC Error: Timeout" eq_refl)).
  exists "internal json-rpc error". split.
  - simpl. tauto.
  - apply includes_spec. reflexivity.
Defined.

(** C4, as stated, fails: on an error object that has no [message] the
    classifier does not answer [false], it raises. *)
Lemma isRetryableError_missing_message :
  Instances.no_message tt = None /\
  isRetryableError Instances.no_message tt = Threw TypeError /\
  isRetryableError Instances.no_message tt <> Returned false.
Proof.
  repeat split. discriminate.
Qed.

(** C4, amended. On every error whose [message] is a string the classifier
    returns a boolean, and [false] when that string is empty; on an error
    without a [message] string it raises a [TypeError]. *)
Theorem isRetryableError_total_on_messages :
  forall (Err : Type) (message : Err -> option string) (error : Err),
    match message error with
    | Some m =>
        exists b, isRetryableError message error = Returned b /\
                  (m = "" -> b = false)
    | None => isRetryableError message error = Threw TypeError
    end.
Proof.
  intros Err message error. unfold isRetryableError.
  destruct (message error) as [m|]; [|reflexivity].
  eexists. split; [reflexivity|]. intros ->. reflexivity.
Qed.

End ClassifierSpec.

(** ** The policy argument *)

Module PolicySpec.
Import JsString JsNumber Policy Retry LoopFacts.
Local Open Scope Z_scope.

(** C8, as stated, fails: in a policy object that supplies only
    [maxAttempts] the other three fields stay [undefined], and the run
    sleeps [undefined] and then [NaN], not 1000 and 2000. *)
Lemma partial_policy_not_defaulted :
  initialDelay Instances.only_maxAttempts = undefined /\
  initialDelay (bind_policy (Some Instances.only_maxAttempts)) <>
    initialDelay RETRY_CONFIG /\
  sleeps (trace (final (withRetry Instances.message_of Instances.always_timeout
                                  (Some Instances.only_maxAttempts)
                                  (initial O)))) =
    [undefined; Some NaN; Some NaN; Some NaN].
Proof.
  repeat split. discriminate.
Qed.

(** C8, amended. The default policy (3 attempts, 1000ms, 10000ms, factor 2)
    stands in for the policy argument as a whole and only when the argument
    is absent; a policy object that is supplied is used as it is, so a field
    it lacks is [undefined]: without [maxAttempts] the operation is never
    invoked. *)
Theorem policy_default_is_whole_object :
  RETRY_CONFIG =
    mkPolicy (Some (of_Z 3)) (Some (of_Z 1000)) (Some (of_Z 10000)) (Some (of_Z 2)) /\
  bind_policy None = RETRY_CONFIG /\
  (forall p : policy, bind_policy (Some p) = p) /\
  (forall (T Err S : Type) (message : Err -> option string)
          (operation : S -> (T + Err) * S) (st : state S),
      withRetry message operation None st =
      withRetry message operation (Some RETRY_CONFIG) st) /\
  (forall (T Err S : Type) (message : Err -> option string)
          (operation : S -> (T + Err) * S) (p : policy) (st : state S),
      maxAttempts p = undefined ->
      withRetry message operation (Some p) st =
      mkRun ThrowAfterLoop (Threw UndefinedValue) st).
Proof.
  repeat split.
  intros T Err S message operation p st Hp. unfold withRetry. cbn [bind_policy].
  apply loop_exit. unfold in_budget. now rewrite Hp.
Qed.

Lemma policy_default_is_whole_object_witness :
  maxAttempts Instances.only_initialDelay = undefined /\
  withRetry Instances.message_of Instances.always_ok
            (Some Instances.only_initialDelay) (initial O) =
  mkRun ThrowAfterLoop (Threw UndefinedValue) (initial O).
Proof.
  split; [reflexivity|].
  apply (proj2 (proj2 (proj2 (proj2 policy_default_is_whole_object)))).
  reflexivity.
Defined.

End PolicySpec.

(** ** Runs under any finite attempt budget *)

Module RationalBudgetFacts.
Import JsString JsNumber Policy Retry LoopFacts BackoffFacts BudgetFacts.
Local Open Scope Z_scope.

Section RationalBudget.

Variables (T Err S : Type).
Variable message : Err -> option string.
Variable operation : S -> (T + Err) * S.
Variable p : policy.
Variable q : Q.
Hypothesis Hbudget : maxAttempts p = Some (Fin q).

(** The loop goes on for exactly the counters up to the integer part of
    the budget. *)
Lemma in_budget_rational a : in_budget p a = true <-> a <= Qfloor q.
Proof.
  unfold in_budget. rewrite Hbudget. cbn [ToNumber]. rewrite le_Fin_of_Z. split.
  - intros H. apply Qfloor_resp_le in H. now rewrite Qfloor_Z in H.
  - intros H. apply Qle_trans with (inject_Z (Qfloor q)).
    + now rewrite <- Zle_Qle.
    + apply Qfloor_le.
Qed.

Lemma last_attempt_rational a :
  strict_eq (of_Z a) (maxAttempts p) = true <-> (inject_Z a == q)%Q.
Proof.
  rewrite Hbudget. unfold strict_eq, of_Z. apply Qeq_bool_iff.
Qed.

Lemma integer_budget_floor a : (inject_Z a == q)%Q -> a = Qfloor q.
Proof.
  intros H. rewrite <- H. symmetry. apply Qfloor_Z.
Qed.

(** A run that enters the loop at a counter [a] within the budget makes
    [k + 1] invocations: the first [k] fail with retryable errors, and
    invocation [k + 1] decides the run.  It leaves by the [throw] after the
    loop only when the budget is no integer and its integer part is used
    up. *)
Lemma rational_budget_run a d e st :
  a <= Qfloor q + 1 ->
  let r := loop message operation (maxAttempts p) (maxDelay p) (backoffFactor p)
                a d e st in
  (Qfloor q < a -> r = mkRun ThrowAfterLoop (throw_last T e) st) /\
  (a <= Qfloor q ->
   exists k : nat,
     a + Z.of_nat k <= Qfloor q /\
     (forall j, (j < k)%nat ->
        exists err, outcome operation j (world st) = inr err /\
                    isRetryableError message err = Returned true) /\
     world (final r) = world_after operation (Datatypes.S k) (world st) /\
     calls (trace (final r)) = (calls (trace st) + Datatypes.S k)%nat /\
     match outcome operation k (world st) with
     | inl v => result r = Returned v /\ exit r = ReturnInTry
     | inr err =>
         match isRetryableError message err with
         | Threw x => result r = Threw x /\ exit r = ClassifierRaised
         | Returned retryable =>
             result r = Threw (ErrorValue err) /\
             ((exit r = ThrowInCatch /\
               (retryable = false \/
                (a + Z.of_nat k = Qfloor q /\ (inject_Z (Qfloor q) == q)%Q))) \/
              (exit r = ThrowAfterLoop /\ retryable = true /\
               a + Z.of_nat k = Qfloor q /\ ~ (inject_Z (Qfloor q) == q)%Q))
         end
     end).
Proof.
  cbv zeta.
  apply (loop_induction T Err S message operation p
    (fun a _ e st r =>
       a <= Qfloor q + 1 ->
       (Qfloor q < a -> r = mkRun ThrowAfterLoop (throw_last T e) st) /\
       (a <= Qfloor q ->
        exists k : nat,
          a + Z.of_nat k <= Qfloor q /\
          (forall j, (j < k)%nat ->
             exists err, outcome operation j (world st) = inr err /\
                         isRetryableError message err = Returned true) /\
          world (final r) = world_after operation (Datatypes.S k) (world st) /\
          calls (trace (final r)) = (calls (trace st) + Datatypes.S k)%nat /\
          match outcome operation k (world st) with
          | inl v => result r = Returned v /\ exit r = ReturnInTry
          | inr err =>
              match isRetryableError message err with
              | Threw x => result r = Threw x /\ exit r = ClassifierRaised
              | Returned retryable =>
                  result r = Threw (ErrorValue err) /\
                  ((exit r = ThrowInCatch /\
                    (retryable = false \/
                     (a + Z.of_nat k = Qfloor q /\
                      (inject_Z (Qfloor q) == q)%Q))) \/
                   (exit r = ThrowAfterLoop /\ retryable = true /\
                    a + Z.of_nat k = Qfloor q /\
                    ~ (inject_Z (Qfloor q) == q)%Q))
              end
          end))); clear a d e st.
  - (* the test of the loop fails *)
    intros a d e st Hb _. split; [reflexivity|].
    intros Ha. apply in_budget_rational in Ha. congruence.
  - (* the operation returns *)
    intros a d e st v w Hb Hop _. apply in_budget_rational in Hb.
    split; [lia|]. intros _. exists O.
    unfold outcome. cbn [world_after final world trace result exit].
    rewrite Hop, calls_app. cbn [fst snd calls].
    repeat split; try lia; try (intros j Hj; lia).
  - (* the classifier raises *)
    intros a d e st err w x Hb Hop Hc _. apply in_budget_rational in Hb.
    split; [lia|]. intros _. exists O.
    unfold outcome. cbn [world_after final world trace result exit].
    rewrite Hop, calls_app. cbn [fst snd calls]. rewrite Hc.
    repeat split; try lia; try (intros j Hj; lia).
  - (* the error is thrown again from the catch block *)
    intros a d e st err w b Hb Hop Hc Hstop _. apply in_budget_rational in Hb.
    split; [lia|]. intros _. exists O.
    unfold outcome. cbn [world_after final world trace result exit].
    rewrite Hop, calls_app. cbn [fst snd calls]. rewrite Hc.
    split; [lia|]. split; [intros j Hj; lia|]. split; [reflexivity|].
    split; [lia|]. split; [reflexivity|]. left. split; [reflexivity|].
    apply orb_true_iff in Hstop. destruct Hstop as [Hstop|Hstop].
    + left. now destruct b.
    + right. apply last_attempt_rational in Hstop.
      pose proof (integer_budget_floor a Hstop) as Ha. subst a.
      split; [lia | exact Hstop].
  - (* the loop goes round again *)
    intros a d e st err w r Hb Hop Hc Hne IH _. apply in_budget_rational in Hb.
    split; [lia|]. intros _.
    destruct IH as [IHexit IHrun]; [lia|].
    destruct (Z.eq_dec a (Qfloor q)) as [Heq|Hlt].
    + (* that was the last counter within the budget *)
      rewrite IHexit by lia. exists O.
      unfold outcome. cbn [world_after final world trace result exit throw_last].
      rewrite Hop, calls_app. cbn [fst snd calls]. rewrite Hc.
      split; [lia|]. split; [intros j Hj; lia|]. split; [reflexivity|].
      split; [unfold retry_events; cbn [calls]; lia|].
      split; [reflexivity|]. right.
      split; [reflexivity|]. split; [reflexivity|]. split; [lia|].
      intros Hint. subst a. apply last_attempt_rational in Hint. congruence.
    + destruct IHrun as (k & Hk & Hpre & Hw & Hcalls & Hlast); [lia|].
      cbn [world trace] in Hpre, Hw, Hcalls, Hlast.
      exists (Datatypes.S k). split; [lia|]. split; [|split; [|split]].
      * intros [|j] Hj.
        -- exists err. unfold outcome. cbn [world_after]. rewrite Hop. now split.
        -- rewrite outcome_succ, Hop. apply Hpre. lia.
      * rewrite Hw. cbn [world_after]. now rewrite Hop.
      * rewrite Hcalls, calls_app. unfold retry_events. cbn [calls]. lia.
      * rewrite outcome_succ, Hop. cbn [snd].
        destruct (outcome operation k w) as [v|err']; [exact Hlast|].
        destruct (isRetryableError message err') as [b|x]; [|exact Hlast].
        destruct Hlast as (Hres & Hexit). split; [exact Hres|].
        destruct Hexit as [(He & [Hb0 | (Hend & Hint)]) | (He & Hb1 & Hend & Hint)].
        -- left. split; [exact He | now left].
        -- left. split; [exact He|]. right. split; [lia | exact Hint].
        -- right. repeat split; try assumption. lia.
Qed.

End RationalBudget.

End RationalBudgetFacts.

(** ** The retry executor *)

Module RetrySpec.
Import JsString JsNumber Policy Retry LoopFacts BackoffFacts BudgetFacts.
Import RationalBudgetFacts.
Local Open Scope Z_scope.

(** Closes a comparison between two rational literals by evaluation. *)
Ltac qcompare := vm_compute; first [reflexivity | discriminate].

Lemma in_budget_numeric (p : policy) (q : Q) (a : Z) :
  maxAttempts p = Some (Fin q) -> (inject_Z a <= q)%Q -> in_budget p a = true.
Proof.
  intros Hp Hq. unfold in_budget. rewrite Hp. now apply le_Fin_of_Z.
Qed.

Lemma not_last_numeric (p : policy) (q : Q) (a : Z) :
  maxAttempts p = Some (Fin q) -> (inject_Z a < q)%Q ->
  strict_eq (of_Z a) (maxAttempts p) = false.
Proof.
  intros Hp Hq. rewrite Hp. unfold strict_eq, of_Z.
  destruct (Qeq_bool (inject_Z a) q) eqn:E; [|reflexivity].
  apply Qeq_bool_iff in E. rewrite E in Hq. now apply Qlt_irrefl in Hq.
Qed.

(** The delays slept by a call of [withRetry] are a prefix of the backoff
    schedule that starts at [initialDelay]. *)
Lemma withRetry_sleeps (T Err S : Type) (message : Err -> option string)
  (operation : S -> (T + Err) * S) (arg : option policy) (w : S) :
  exists k,
    sleeps (trace (final (withRetry message operation arg (initial w)))) =
    schedule (bind_policy arg) k (initialDelay (bind_policy arg)).
Proof.
  unfold withRetry.
  destruct (loop_sleeps T Err S message operation (bind_policy arg)
              1 (initialDelay (bind_policy arg)) None (initial w)) as [k Hk].
  exists k. exact Hk.
Qed.

(** C5. When the first invocation fails with an error classified not
    retryable, [withRetry] fails with that very error after one invocation
    and no sleep. *)
Theorem withRetry_terminal_error_first :
  forall (T Err S : Type) (message : Err -> option string)
         (operation : S -> (T + Err) * S) (arg : option policy) (q : Q)
         (w w' : S) (err : Err),
    maxAttempts (bind_policy arg) = Some (Fin q) ->
    (1 <= q)%Q ->
    operation w = (inr err, w') ->
    isRetryableError message err = Returned false ->
    let r := withRetry message operation arg (initial w) in
    result r = Threw (ErrorValue err) /\
    exit r = ThrowInCatch /\
    final r = mkState w' [Call] /\
    calls (trace (final r)) = 1%nat /\
    sleeps (trace (final r)) = [].
Proof.
  intros T Err S message operation arg q w w' err Hq H1 Hop Hc r.
  assert (Hr : r = mkRun ThrowInCatch (Threw (ErrorValue err)) (mkState w' [Call])).
  { subst r. unfold withRetry.
    apply (loop_rethrow T Err S message operation (bind_policy arg)
             1 _ None (initial w) err w' false).
    - apply (in_budget_numeric _ q _ Hq). exact H1.
    - exact Hop.
    - exact Hc.
    - reflexivity. }
  rewrite Hr. repeat split.
Qed.

Lemma withRetry_terminal_error_first_witness :
  maxAttempts (bind_policy None) = Some (Fin 3) /\
  (1 <= 3)%Q /\
  Instances.always_reverted O = (inr "execution reverted"%string, 1%nat) /\
  isRetryableError Instances.message_of "execution reverted"%string =
    Returned false /\
  result (withRetry Instances.message_of Instances.always_reverted None
                    (initial O)) =
    Threw (ErrorValue "execution reverted"%string).
Proof.
  split; [reflexivity|]. split; [qcompare|].
  split; [reflexivity|]. split; [reflexivity|].
  apply (withRetry_terminal_error_first nat string nat Instances.message_of
           Instances.always_reverted None 3 O 1%nat "execution reverted"%string);
    [reflexivity | qcompare | reflexivity | reflexivity].
Defined.

(** C6. [withRetry] returns the result of the first invocation that
    succeeds and stops there: after a success on the first invocation there
    is one invocation and no sleep; after two retryable failures and a
    success on the third invocation, within a budget of at least three
    attempts, it returns the third result having slept exactly twice. *)
Theorem withRetry_first_success :
  forall (T Err S : Type) (message : Err -> option string)
         (operation : S -> (T + Err) * S) (arg : option policy) (q : Q) (w : S),
    maxAttempts (bind_policy arg) = Some (Fin q) ->
    let p := bind_policy arg in
    let r := withRetry message operation arg (initial w) in
    ((1 <= q)%Q ->
     forall (v : T) (w1 : S),
       operation w = (inl v, w1) ->
       result r = Returned v /\
       exit r = ReturnInTry /\
       final r = mkState w1 [Call] /\
       calls (trace (final r)) = 1%nat /\
       sleeps (trace (final r)) = []) /\
    ((3 <= q)%Q ->
     forall (e1 e2 : Err) (v : T) (w1 w2 w3 : S),
       operation w = (inr e1, w1) ->
       isRetryableError message e1 = Returned true ->
       operation w1 = (inr e2, w2) ->
       isRetryableError message e2 = Returned true ->
       operation w2 = (inl v, w3) ->
       result r = Returned v /\
       exit r = ReturnInTry /\
       world (final r) = w3 /\
       trace (final r) =
         retry_events message p 1 (initialDelay p) e1 ++
         retry_events message p 2 (next_delay p (initialDelay p)) e2 ++
         [Call] /\
       calls (trace (final r)) = 3%nat /\
       sleeps (trace (final r)) =
         [initialDelay p; next_delay p (initialDelay p)]).
Proof.
  intros T Err S message operation arg q w Hq p r. split.
  - intros H1 v w1 Hop.
    assert (Hr : r = mkRun ReturnInTry (Returned v) (mkState w1 [Call])).
    { subst r. unfold withRetry.
      apply (loop_return T Err S message operation (bind_policy arg)
               1 _ None (initial w) v w1); [|exact Hop].
      apply (in_budget_numeric _ q _ Hq). exact H1. }
    rewrite Hr. repeat split.
  - intros H3 e1 e2 v w1 w2 w3 Hop1 Hc1 Hop2 Hc2 Hop3.
    assert (Hr : r = mkRun ReturnInTry (Returned v)
                       (mkState w3 (retry_events message p 1 (initialDelay p) e1 ++
                                    retry_events message p 2
                                      (next_delay p (initialDelay p)) e2 ++
                                    [Call]))).
    { subst r. unfold withRetry. fold p.
      rewrite (loop_retry T Err S message operation p 1 (initialDelay p) None
                 (initial w) e1 w1);
        [ | apply (in_budget_numeric p q _ Hq); unfold inject_Z; lra
          | exact Hop1 | exact Hc1
          | apply (not_last_numeric p q _ Hq); unfold inject_Z; lra ].
      change (1 + 1) with 2.
      rewrite (loop_retry T Err S message operation p 2 _ (Some e1)
                 _ e2 w2);
        [ | apply (in_budget_numeric p q _ Hq); unfold inject_Z; lra
          | exact Hop2 | exact Hc2
          | apply (not_last_numeric p q _ Hq); unfold inject_Z; lra ].
      change (2 + 1) with 3.
      rewrite (loop_return T Err S message operation p 3 _ (Some e2)
                 _ v w3);
        [ | apply (in_budget_numeric p q _ Hq); unfold inject_Z; lra | exact Hop3 ].
      cbn [trace initial app]. now rewrite <- app_assoc. }
    rewrite Hr. repeat split.
Qed.

Lemma withRetry_first_success_witness :
  maxAttempts (bind_policy None) = Some (Fin 3) /\
  result (withRetry Instances.message_of Instances.always_ok None (initial 7%nat)) =
    Returned 7%nat /\
  result (withRetry Instances.message_of Instances.third_time_lucky None
                    (initial O)) = Returned 2%nat /\
  sleeps (trace (final (withRetry Instances.message_of
                                  Instances.third_time_lucky None (initial O)))) =
    [Some (of_Z 1000); Some (of_Z 2000)].
Proof.
  split; [reflexivity|]. split; [|split].
  - apply (proj1 (withRetry_first_success nat string nat Instances.message_of
                    Instances.always_ok None 3 7%nat eq_refl))
      with (w1 := 8%nat); [qcompare | reflexivity].
  - apply (proj2 (withRetry_first_success nat string nat Instances.message_of
                    Instances.third_time_lucky None 3 O eq_refl))
      with (e1 := "Network Error"%string) (e2 := "nonce too low"%string)
           (w1 := 1%nat) (w2 := 2%nat) (w3 := 3%nat);
      [qcompare | reflexivity | reflexivity | reflexivity | reflexivity
       | reflexivity].
  - apply (proj2 (withRetry_first_success nat string nat Instances.message_of
                    Instances.third_time_lucky None 3 O eq_refl))
      with (e1 := "Network Error"%string) (e2 := "nonce too low"%string)
           (v := 2%nat) (w1 := 1%nat) (w2 := 2%nat) (w3 := 3%nat);
      [qcompare | reflexivity | reflexivity | reflexivity | reflexivity
       | reflexivity].
Defined.

(** C2. Under the policy [{maxAttempts: 3, initialDelay: 1000, maxDelay:
    10000, backoffFactor: 2}], an operation that fails with a retryable
    error on every invocation is invoked exactly three times, with a sleep
    of 1000ms and then one of 2000ms between the attempts, and [withRetry]
    fails with the error of the third invocation. *)
Theorem withRetry_exhausts_three_attempts :
  forall (T Err S : Type) (message : Err -> option string)
         (operation : S -> (T + Err) * S) (w : S),
    (forall w0, exists err w1,
        operation w0 = (inr err, w1) /\
        isRetryableError message err = Returned true) ->
    let p := Instances.three_attempts in
    let r := withRetry message operation (Some p) (initial w) in
    exists e1 e2 e3 : Err,
      outcome operation 0 w = inr e1 /\
      outcome operation 1 w = inr e2 /\
      outcome operation 2 w = inr e3 /\
      trace (final r) =
        retry_events message p 1 (Some (of_Z 1000)) e1 ++
        retry_events message p 2 (Some (of_Z 2000)) e2 ++
        [Call] /\
      calls (trace (final r)) = 3%nat /\
      sleeps (trace (final r)) = [Some (of_Z 1000); Some (of_Z 2000)] /\
      world (final r) = world_after operation 3 w /\
      exit r = ThrowInCatch /\
      result r = Threw (ErrorValue e3).
Proof.
  intros T Err S message operation w Hfail p r.
  destruct (Hfail w) as (e1 & w1 & Hop1 & Hc1).
  destruct (Hfail w1) as (e2 & w2 & Hop2 & Hc2).
  destruct (Hfail w2) as (e3 & w3 & Hop3 & Hc3).
  exists e1, e2, e3.
  assert (Hr : r = mkRun ThrowInCatch (Threw (ErrorValue e3))
                     (mkState w3 (retry_events message p 1 (Some (of_Z 1000)) e1 ++
                                  retry_events message p 2 (Some (of_Z 2000)) e2 ++
                                  [Call]))).
  { subst r. unfold withRetry. cbn [bind_policy]. fold p.
    rewrite (loop_retry T Err S message operation p 1 (initialDelay p) None
               (initial w) e1 w1 eq_refl Hop1 Hc1 eq_refl).
    change (1 + 1) with 2.
    rewrite (loop_retry T Err S message operation p 2 _ (Some e1)
               (mkState w1 _) e2 w2 eq_refl Hop2 Hc2 eq_refl).
    change (2 + 1) with 3.
    rewrite (loop_rethrow T Err S message operation p 3 _ (Some e2)
               (mkState w2 _) e3 w3 true eq_refl Hop3 Hc3 eq_refl).
    cbn [trace initial app]. rewrite <- app_assoc. reflexivity. }
  rewrite Hr. unfold outcome. cbn [world_after final world trace result exit].
  rewrite Hop1. cbn [fst snd]. rewrite Hop2. cbn [fst snd]. rewrite Hop3.
  repeat split.
Qed.

Lemma withRetry_exhausts_three_attempts_witness :
  (forall w0 : nat, exists (err : string) (w1 : nat),
      Instances.always_timeout w0 = (inr err, w1) /\
      isRetryableError Instances.message_of err = Returned true) /\
  exists e1 e2 e3 : string,
    outcome Instances.always_timeout 0 O = inr e1 /\
    outcome Instances.always_timeout 1 O = inr e2 /\
    outcome Instances.always_timeout 2 O = inr e3 /\
    trace (final (withRetry Instances.message_of Instances.always_timeout
                            (Some Instances.three_attempts) (initial O))) =
      retry_events Instances.message_of Instances.three_attempts 1
                   (Some (of_Z 1000)) e1 ++
      retry_events Instances.message_of Instances.three_attempts 2
                   (Some (of_Z 2000)) e2 ++
      [Call] /\
    calls (trace (final (withRetry Instances.message_of Instances.always_timeout
                                   (Some Instances.three_attempts) (initial O)))) =
      3%nat /\
    sleeps (trace (final (withRetry Instances.message_of Instances.always_timeout
                                    (Some Instances.three_attempts) (initial O)))) =
      [Some (of_Z 1000); Some (of_Z 2000)] /\
    world (final (withRetry Instances.message_of Instances.always_timeout
                            (Some Instances.three_attempts) (initial O))) =
      world_after Instances.always_timeout 3 O /\
    exit (withRetry Instances.message_of Instances.always_timeout
                    (Some Instances.three_attempts) (initial O)) = ThrowInCatch /\
    result (withRetry Instances.message_of Instances.always_timeout
                      (Some Instances.three_attempts) (initial O)) =
      Threw (ErrorValue e3).
Proof.
  assert (H : forall w0 : nat, exists (err : string) (w1 : nat),
             Instances.always_timeout w0 = (inr err, w1) /\
             isRetryableError Instances.message_of err = Returned true).
  { intros w0. exists "request timeout"%string, (Datatypes.S w0).
    split; reflexivity. }
  split; [exact H|].
  exact (withRetry_exhausts_three_attempts nat string nat Instances.message_of
           Instances.always_timeout O H).
Defined.

(** C1, as stated, fails on an operation whose error has no message:
    under the default budget of three attempts the operation is invoked
    once, the classifier raises on its error, and [withRetry] fails with
    that [TypeError], which no invocation of the operation produced.  It
    also fails for a budget that is no integer: with [maxAttempts] 2.5 the
    run ends with the error of attempt 2, which is retryable and is not the
    attempt at index [maxAttempts]. *)
Lemma withRetry_classifier_error_escapes :
  (maxAttempts (bind_policy None) = Some (of_Z 3) /\
   Instances.throws_bare O = (inr tt, 1%nat) /\
   result (withRetry Instances.no_message Instances.throws_bare None (initial O)) =
     Threw TypeError /\
   calls (trace (final (withRetry Instances.no_message Instances.throws_bare None
                                  (initial O)))) = 1%nat /\
   (forall err : unit,
       result (withRetry Instances.no_message Instances.throws_bare None
                         (initial O)) <> Threw (ErrorValue err)) /\
   (forall v : nat,
       result (withRetry Instances.no_message Instances.throws_bare None
                         (initial O)) <> Returned v)) /\
  (num_le (of_Z 1) (ToNumber (maxAttempts MoreInstances.fractional_budget)) /\
   calls (trace (final (withRetry Instances.message_of Instances.always_timeout
                                  (Some MoreInstances.fractional_budget)
                                  (initial O)))) = 2%nat /\
   outcome Instances.always_timeout 1 O = inr "request timeout"%string /\
   result (withRetry Instances.message_of Instances.always_timeout
                     (Some MoreInstances.fractional_budget) (initial O)) =
     Threw (ErrorValue "request timeout"%string) /\
   isRetryableError Instances.message_of "request timeout"%string =
     Returned true /\
   strict_eq (of_Z 2) (maxAttempts MoreInstances.fractional_budget) = false).
Proof.
  split.
  - split; [reflexivity|]. split; [reflexivity|]. split; [reflexivity|].
    split; [reflexivity|]. split; intros x; vm_compute; discriminate.
  - split; [qcompare|]. repeat split; reflexivity.
Qed.

(** C1, amended. Under a budget [maxAttempts] of at least 1, [withRetry]
    makes [k + 1] invocations, at most as many as the integer part of the
    budget; the first [k] fail with retryable errors, and the last one
    decides the run.  If it succeeds its result is returned.  If it fails
    with an error that carries a message, [withRetry] fails with that very
    error, and this invocation is number floor([maxAttempts]) or its error
    is classified not retryable.  If it fails with an error that carries no
    message, [withRetry] fails with the [TypeError] of the classifier. *)
Theorem withRetry_failure_guarantee :
  forall (T Err S : Type) (message : Err -> option string)
         (operation : S -> (T + Err) * S) (arg : option policy) (q : Q) (w : S),
    maxAttempts (bind_policy arg) = Some (Fin q) ->
    (1 <= q)%Q ->
    let r := withRetry message operation arg (initial w) in
    exists k : nat,
      Z.of_nat (Datatypes.S k) <= Qfloor q /\
      (forall j, (j < k)%nat ->
         exists err, outcome operation j w = inr err /\
                     isRetryableError message err = Returned true) /\
      calls (trace (final r)) = Datatypes.S k /\
      world (final r) = world_after operation (Datatypes.S k) w /\
      match outcome operation k w with
      | inl v => result r = Returned v
      | inr err =>
          match message err with
          | Some _ =>
              result r = Threw (ErrorValue err) /\
              (Z.of_nat (Datatypes.S k) = Qfloor q \/
               isRetryableError message err = Returned false)
          | None => result r = Threw TypeError
          end
      end.
Proof.
  intros T Err S message operation arg q w Hq H1 r.
  assert (Hfloor : 1 <= Qfloor q) by (apply Qfloor_resp_le in H1; exact H1).
  destruct (rational_budget_run T Err S message operation (bind_policy arg) q Hq
              1 (initialDelay (bind_policy arg)) None (initial w) ltac:(lia))
    as [_ Hrun].
  destruct (Hrun Hfloor) as (k & Hk & Hpre & Hw & Hcalls & Hlast).
  fold (withRetry message operation arg (initial w)) in Hw, Hcalls, Hlast.
  fold r in Hw, Hcalls, Hlast. cbn [initial world trace calls] in *.
  exists k. split; [lia|]. split; [exact Hpre|]. split; [exact Hcalls|].
  split; [exact Hw|].
  destruct (outcome operation k w) as [v|err]; [tauto|].
  unfold isRetryableError in Hlast |- *.
  destruct (message err) as [m|].
  - destruct Hlast as (Hres & Hexit). split; [exact Hres|].
    destruct Hexit as [(_ & [Hb | (Hend & _)]) | (_ & _ & Hend & _)].
    + right. now rewrite Hb.
    + left. lia.
    + left. lia.
  - tauto.
Qed.

Lemma withRetry_failure_guarantee_witness :
  maxAttempts (bind_policy None) = Some (Fin 3) /\
  (1 <= 3)%Q /\
  exists k : nat,
    Z.of_nat (Datatypes.S k) <= Qfloor 3 /\
    (forall j, (j < k)%nat ->
       exists err, outcome Instances.third_time_lucky j O = inr err /\
                   isRetryableError Instances.message_of err = Returned true) /\
    calls (trace (final (withRetry Instances.message_of
                                   Instances.third_time_lucky None (initial O)))) =
      Datatypes.S k /\
    world (final (withRetry Instances.message_of Instances.third_time_lucky None
                            (initial O))) =
      world_after Instances.third_time_lucky (Datatypes.S k) O /\
    match outcome Instances.third_time_lucky k O with
    | inl v =>
        result (withRetry Instances.message_of Instances.third_time_lucky None
                          (initial O)) = Returned v
    | inr err =>
        match Instances.message_of err with
        | Some _ =>
            result (withRetry Instances.message_of Instances.third_time_lucky None
                              (initial O)) = Threw (ErrorValue err) /\
            (Z.of_nat (Datatypes.S k) = Qfloor 3 \/
             isRetryableError Instances.message_of err = Returned false)
        | None =>
            result (withRetry Instances.message_of Instances.third_time_lucky None
                              (initial O)) = Threw TypeError
        end
    end.
Proof.
  assert (A : (1 <= 3)%Q) by qcompare.
  split; [reflexivity|]. split; [exact A|].
  exact (withRetry_failure_guarantee nat string nat Instances.message_of
           Instances.third_time_lucky None 3 O eq_refl A).
Defined.

(** C9, as stated, fails for a budget that is no integer: with
    [maxAttempts] 2.5 and an operation that always fails with a retryable
    error, the run leaves by the [throw lastError] that follows the
    loop. *)
Lemma withRetry_trailing_throw_reached :
  num_le (of_Z 1) (ToNumber (maxAttempts MoreInstances.fractional_budget)) /\
  exit (withRetry Instances.message_of Instances.always_timeout
                  (Some MoreInstances.fractional_budget) (initial O)) =
    ThrowAfterLoop /\
  calls (trace (final (withRetry Instances.message_of Instances.always_timeout
                                 (Some MoreInstances.fractional_budget)
                                 (initial O)))) = 2%nat.
Proof.
  split; [qcompare|]. split; reflexivity.
Qed.

(** C9, amended. Under a budget [maxAttempts] of at least 1 the operation
    is invoked at least once: the run makes [k + 1] invocations one after
    the other, at most as many as the integer part of the budget, and ends
    in the world the last of them leaves; when the budget is an integer the
    run never leaves by the [throw lastError] that follows the loop.  Under
    a budget of zero or less the operation is not invoked at all and the
    run leaves by that statement, throwing [undefined]. *)
Theorem withRetry_trailing_throw :
  forall (T Err S : Type) (message : Err -> option string)
         (operation : S -> (T + Err) * S) (arg : option policy) (q : Q) (w : S),
    maxAttempts (bind_policy arg) = Some (Fin q) ->
    let r := withRetry message operation arg (initial w) in
    ((1 <= q)%Q ->
     exists k : nat,
       Z.of_nat (Datatypes.S k) <= Qfloor q /\
       calls (trace (final r)) = Datatypes.S k /\
       world (final r) = world_after operation (Datatypes.S k) w /\
       (forall j, (j < k)%nat ->
          exists err, outcome operation j w = inr err /\
                      isRetryableError message err = Returned true) /\
       ((inject_Z (Qfloor q) == q)%Q -> exit r <> ThrowAfterLoop)) /\
    ((q <= 0)%Q ->
     calls (trace (final r)) = O /\
     final r = initial w /\
     exit r = ThrowAfterLoop /\
     result r = Threw UndefinedValue).
Proof.
  intros T Err S message operation arg q w Hq r. split.
  - intros H1.
    assert (Hfloor : 1 <= Qfloor q) by (apply Qfloor_resp_le in H1; exact H1).
    destruct (rational_budget_run T Err S message operation (bind_policy arg) q Hq
                1 (initialDelay (bind_policy arg)) None (initial w) ltac:(lia))
      as [_ Hrun].
    destruct (Hrun Hfloor) as (k & Hk & Hpre & Hw & Hcalls & Hlast).
    fold (withRetry message operation arg (initial w)) in Hw, Hcalls, Hlast.
    fold r in Hw, Hcalls, Hlast. cbn [initial world trace calls] in *.
    exists k. split; [lia|]. split; [exact Hcalls|]. split; [exact Hw|].
    split; [exact Hpre|]. intros Hint.
    destruct (outcome operation k w) as [v|err].
    + destruct Hlast as [_ ->]. discriminate.
    + destruct (isRetryableError message err) as [b|x].
      * destruct Hlast as (_ & [(-> & _) | (_ & _ & _ & Hfrac)]);
          [discriminate | contradiction].
      * destruct Hlast as [_ ->]. discriminate.
  - intros H0.
    assert (Hfloor : Qfloor q <= 0).
    { apply Qfloor_resp_le in H0. exact H0. }
    assert (Hb : in_budget (bind_policy arg) 1 = false).
    { destruct (in_budget (bind_policy arg) 1) eqn:Hb; [|reflexivity].
      apply (in_budget_rational (bind_policy arg) q Hq 1) in Hb. lia. }
    subst r. unfold withRetry.
    rewrite (loop_exit T Err S message operation (bind_policy arg) 1
               (initialDelay (bind_policy arg)) None (initial w) Hb).
    repeat split.
Qed.

Lemma withRetry_trailing_throw_witness :
  (maxAttempts (bind_policy None) = Some (Fin 3) /\
   (1 <= 3)%Q /\
   exists k : nat,
     Z.of_nat (Datatypes.S k) <= Qfloor 3 /\
     calls (trace (final (withRetry Instances.message_of
                                    Instances.always_timeout None (initial O)))) =
       Datatypes.S k /\
     world (final (withRetry Instances.message_of Instances.always_timeout None
                             (initial O))) =
       world_after Instances.always_timeout (Datatypes.S k) O /\
     (forall j, (j < k)%nat ->
        exists err, outcome Instances.always_timeout j O = inr err /\
                    isRetryableError Instances.message_of err = Returned true) /\
     ((inject_Z (Qfloor 3) == 3)%Q ->
      exit (withRetry Instances.message_of Instances.always_timeout None
                      (initial O)) <> ThrowAfterLoop)) /\
  (maxAttempts (bind_policy (Some Instances.no_attempts)) = Some (Fin 0) /\
   (0 <= 0)%Q /\
   calls (trace (final (withRetry Instances.message_of Instances.always_timeout
                                  (Some Instances.no_attempts) (initial O)))) = O /\
   final (withRetry Instances.message_of Instances.always_timeout
                    (Some Instances.no_attempts) (initial O)) = initial O /\
   exit (withRetry Instances.message_of Instances.always_timeout
                   (Some Instances.no_attempts) (initial O)) = ThrowAfterLoop /\
   result (withRetry Instances.message_of Instances.always_timeout
                     (Some Instances.no_attempts) (initial O)) =
     Threw UndefinedValue).
Proof.
  assert (A : (1 <= 3)%Q) by qcompare.
  assert (B : (0 <= 0)%Q) by qcompare.
  split.
  - split; [reflexivity|]. split; [exact A|].
    exact (proj1 (withRetry_trailing_throw nat string nat Instances.message_of
                    Instances.always_timeout None 3 O eq_refl) A).
  - split; [reflexivity|]. split; [exact B|].
    exact (proj2 (withRetry_trailing_throw nat string nat Instances.message_of
                    Instances.always_timeout (Some Instances.no_attempts) 0 O
                    eq_refl) B).
Defined.

(** A negative [initialDelay] is no duration.  Handed one, the loop passes
    decreasing arguments to [sleep]: -1000 and then -2000. *)
Remark negative_delay_decreases :
  num_lt (of_Z 1) (ToNumber (backoffFactor Instances.negative_delay)) /\
  num_le (ToNumber (initialDelay Instances.negative_delay))
         (ToNumber (maxDelay Instances.negative_delay)) /\
  sleeps (trace (final (withRetry Instances.message_of Instances.always_timeout
                                  (Some Instances.negative_delay) (initial O)))) =
    [Some (of_Z (-1000)); Some (of_Z (-2000))] /\
  ~ nondecreasing
      (sleeps (trace (final (withRetry Instances.message_of
                                       Instances.always_timeout
                                       (Some Instances.negative_delay)
                                       (initial O))))).
Proof.
  split; [qcompare|]. split; [qcompare|]. split; [reflexivity|].
  intros [H _]. vm_compute in H. apply H. reflexivity.
Qed.





(** C10. The first sleep of a run is [initialDelay] itself, uncapped: when
    [initialDelay] is above [maxDelay] the first sleep exceeds [maxDelay].
    The cap enters with the delay computed for the next retry, so every
    later sleep is at most [maxDelay]. *)
Theorem withRetry_first_delay_uncapped :
  forall (T Err S : Type) (message : Err -> option string)
         (operation : S -> (T + Err) * S) (arg : option policy) (w : S)
         (first : value) (rest : list value),
    sleeps (trace (final (withRetry message operation arg (initial w)))) =
      first :: rest ->
    let p := bind_policy arg in
    first = initialDelay p /\
    (forall d0 dmax : Q,
        initialDelay p = Some (Fin d0) ->
        maxDelay p = Some (Fin dmax) ->
        (dmax < d0)%Q ->
        num_lt (Fin dmax) (ToNumber first)) /\
    (forall d0 dmax f : Q,
        initialDelay p = Some (Fin d0) ->
        maxDelay p = Some (Fin dmax) ->
        backoffFactor p = Some (Fin f) ->
        Forall (fun ms => num_le (ToNumber ms) (Fin dmax)) rest).
Proof.
  intros T Err S message operation arg w first rest Hs p.
  destruct (withRetry_sleeps T Err S message operation arg w) as [k Hk].
  fold p in Hk. rewrite Hs in Hk. destruct k as [|k]; [discriminate|].
  cbn [schedule] in Hk. injection Hk as Hfirst Hrest.
  split; [exact Hfirst|]. split.
  - intros d0 dmax Hd0 Hmax Hlt. rewrite Hfirst, Hd0. exact Hlt.
  - intros d0 dmax f Hd0 Hmax Hf. rewrite Hrest, Hd0.
    apply (schedule_tail_capped p dmax f Hmax Hf).
Qed.

Lemma withRetry_first_delay_uncapped_witness :
  sleeps (trace (final (withRetry Instances.message_of Instances.always_timeout
                                  (Some Instances.delay_above_cap) (initial O)))) =
    [Some (of_Z 5000); Some (of_Z 1000)] /\
  Some (of_Z 5000) = initialDelay (bind_policy (Some Instances.delay_above_cap)) /\
  num_lt (Fin 1000) (ToNumber (Some (of_Z 5000))).
Proof.
  split; [reflexivity|].
  pose proof (withRetry_first_delay_uncapped nat string nat Instances.message_of
                Instances.always_timeout (Some Instances.delay_above_cap) O
                (Some (of_Z 5000)) [Some (of_Z 1000)] eq_refl) as H.
  split; [exact (proj1 H)|].
  apply (proj1 (proj2 H) 5000%Q 1000%Q); [reflexivity | reflexivity | qcompare].
Defined.

(** An error object without a message makes the classifier raise inside the
    [catch] block, and [withRetry] fails with that [TypeError]. *)
Remark withRetry_bare_error :
  withRetry Instances.no_message Instances.throws_bare None (initial O) =
  mkRun ClassifierRaised (Threw TypeError) (mkState 1%nat [Call]).
Proof. reflexivity. Qed.

End RetrySpec.

(** ** Facts on [split], [substring] and [trim] *)

Module JsTextFacts.
Import JsString JsStringFacts JsText.
Local Open Scope string_scope.

Lemma split_not_nil sep s : split sep s <> [].
Proof.
  destruct s as [|c s]; simpl; [discriminate|].
  destruct (Ascii.eqb c sep); [discriminate|].
  destruct (split sep s); discriminate.
Qed.

Lemma split_free sep w : free_of sep w = true -> split sep w = [w].
Proof.
  induction w as [|c w IH]; simpl; [reflexivity|].
  intros H. apply andb_true_iff in H. destruct H as [Hc Hw].
  apply negb_true_iff in Hc. rewrite Hc, (IH Hw). reflexivity.
Qed.

Lemma split_app sep w rest :
  free_of sep w = true ->
  split sep (w ++ String sep rest) = w :: split sep rest.
Proof.
  induction w as [|c w IH]; simpl.
  - intros _. now rewrite Ascii.eqb_refl.
  - intros H. apply andb_true_iff in H. destruct H as [Hc Hw].
    apply negb_true_iff in Hc. rewrite Hc, (IH Hw). reflexivity.
Qed.

Lemma split_pieces_free sep s :
  Forall (fun w => free_of sep w = true) (split sep s).
Proof.
  induction s as [|c s IH]; simpl.
  - constructor; [reflexivity | constructor].
  - destruct (Ascii.eqb c sep) eqn:E.
    + constructor; [reflexivity | exact IH].
    + destruct (split sep s) as [|w ws].
      * constructor; [simpl; now rewrite E | constructor].
      * inversion IH as [|? ? Hw Hws]; subst.
        constructor; [simpl; now rewrite E, Hw | exact Hws].
Qed.

Lemma string_app_assoc (a b c : string) : (a ++ b) ++ c = a ++ (b ++ c).
Proof.
  induction a as [|x a IH]; simpl; [reflexivity | now rewrite IH].
Qed.

Lemma string_app_nil_r (a : string) : a ++ "" = a.
Proof.
  induction a as [|x a IH]; simpl; [reflexivity | now rewrite IH].
Qed.

Lemma free_of_app c s t :
  free_of c (s ++ t) = free_of c s && free_of c t.
Proof.
  induction s as [|a s IH]; simpl; [reflexivity|].
  now rewrite IH, andb_assoc.
Qed.

Lemma length_take n s : String.length (take n s) = Nat.min n (String.length s).
Proof.
  revert s; induction n as [|n IH]; intros [|c s]; simpl; auto.
Qed.

Lemma take_all n s : (String.length s <= n)%nat -> take n s = s.
Proof.
  revert s; induction n as [|n IH]; intros [|c s]; simpl; intros H;
    try reflexivity; try lia.
  f_equal. apply IH. lia.
Qed.

Lemma drop_all n s : (String.length s <= n)%nat -> drop n s = "".
Proof.
  revert s; induction n as [|n IH]; intros [|c s]; simpl; intros H;
    try reflexivity; try lia.
  apply IH. lia.
Qed.

Lemma length_drop n s : String.length (drop n s) = (String.length s - n)%nat.
Proof.
  revert s; induction n as [|n IH]; intros [|c s]; simpl; auto.
Qed.

(** Between two indices in order, [substring] is [take] after [drop],
    wherever the indices fall. *)
Lemma substring_nat s (a b : nat) :
  (a <= b)%nat ->
  substring s (Z.of_nat a) (Z.of_nat b) = take (b - a) (drop a s).
Proof.
  intros Hab. unfold substring.
  set (len := String.length s).
  destruct (Nat.le_gt_cases len a) as [Ha|Ha].
  - (* both indices beyond the end *)
    rewrite (drop_all a s Ha).
    replace (Z.to_nat (Z.min (Z.min (Z.max (Z.of_nat a) 0) (Z.of_nat len))
                             (Z.min (Z.max (Z.of_nat b) 0) (Z.of_nat len))))
      with len by lia.
    rewrite (drop_all len s (Nat.le_refl _)).
    now destruct (Z.to_nat _), (b - a)%nat.
  - replace (Z.to_nat (Z.min (Z.min (Z.max (Z.of_nat a) 0) (Z.of_nat len))
                             (Z.min (Z.max (Z.of_nat b) 0) (Z.of_nat len))))
      with a by lia.
    destruct (Nat.le_gt_cases b len) as [Hb|Hb].
    + f_equal. lia.
    + rewrite (take_all (b - a) (drop a s)) by (rewrite length_drop; fold len; lia).
      apply take_all. rewrite length_drop. fold len. lia.
Qed.

Lemma upper_ascii_range c :
  let n := nat_of_ascii (upper_ascii c) in
  (97 <=? n)%nat && (n <=? 122)%nat = false.
Proof.
  destruct c as [[] [] [] [] [] [] [] []]; reflexivity.
Qed.

(** On ASCII text upper-casing maps character to character. *)
Lemma length_toUpperCase s :
  ascii_text s = true -> String.length (toUpperCase s) = String.length s.
Proof.
  induction s as [|c s IH]; cbn [ascii_text toUpperCase String.length];
    [reflexivity|].
  intros H. apply andb_true_iff in H. destruct H as [_ H]. now rewrite IH.
Qed.

Lemma ascii_text_take n s : ascii_text s = true -> ascii_text (take n s) = true.
Proof.
  revert s. induction n as [|n IH]; intros [|c s]; cbn [take ascii_text];
    try reflexivity.
  intros H. apply andb_true_iff in H. destruct H as [Hc H].
  rewrite Hc. now apply IH.
Qed.

Lemma trimStart_free c s : free_of c s = true -> free_of c (trimStart s) = true.
Proof.
  induction s as [|a s IH]; simpl; [reflexivity|].
  intros H. destruct (is_space a); [|exact H].
  apply andb_true_iff in H. now apply IH.
Qed.

Lemma trimEnd_free c s : free_of c s = true -> free_of c (trimEnd s) = true.
Proof.
  induction s as [|a s IH]; simpl; [reflexivity|].
  intros H. apply andb_true_iff in H. destruct H as [Ha Hs].
  specialize (IH Hs). destruct (trimEnd s) as [|b t].
  - destruct (is_space a); simpl; [reflexivity | now rewrite Ha].
  - simpl. simpl in IH. now rewrite Ha, IH.
Qed.

Lemma trimEnd_cons a s :
  trimEnd (String a s) =
  match trimEnd s with
  | EmptyString => if is_space a then EmptyString else String a EmptyString
  | t => String a t
  end.
Proof. reflexivity. Qed.

Lemma trimEnd_idem s : trimEnd (trimEnd s) = trimEnd s.
Proof.
  induction s as [|a s IH]; [reflexivity|].
  rewrite trimEnd_cons. destruct (trimEnd s) as [|b t] eqn:E.
  - destruct (is_space a) eqn:Ea; simpl; [reflexivity | now rewrite Ea].
  - rewrite trimEnd_cons, IH. reflexivity.
Qed.

Lemma trimStart_no_leading s : no_leading_space (trimStart s).
Proof.
  induction s as [|a s IH]; simpl; [exact I|].
  destruct (is_space a) eqn:E; [exact IH | exact E].
Qed.

Lemma trimStart_fixed s : no_leading_space s -> trimStart s = s.
Proof.
  destruct s as [|a s]; simpl; [reflexivity|]. now intros ->.
Qed.

Lemma trimEnd_no_leading s : no_leading_space s -> no_leading_space (trimEnd s).
Proof.
  destruct s as [|a s]; simpl; [auto|].
  intros Ha. destruct (trimEnd s); [rewrite Ha|]; exact Ha.
Qed.

Lemma trim_idem s : trim (trim s) = trim s.
Proof.
  unfold trim.
  rewrite (trimStart_fixed (trimEnd (trimStart s))).
  - apply trimEnd_idem.
  - apply trimEnd_no_leading, trimStart_no_leading.
Qed.

Lemma trim_free c s : free_of c s = true -> free_of c (trim s) = true.
Proof.
  intros H. unfold trim. now apply trimEnd_free, trimStart_free.
Qed.

(** A trailing white space character does not survive [trimEnd]. *)
Lemma trimEnd_app_space s c :
  is_space c = true -> trimEnd (s ++ String c "") = trimEnd s.
Proof.
  intros Hc. induction s as [|a s IH]; simpl.
  - now rewrite Hc.
  - now rewrite IH.
Qed.

End JsTextFacts.

(** ** Token names and symbols *)

Module TokenNamesSpec.
Import JsString JsText JsTextFacts JsNumber TokenNames.
Local Open Scope string_scope.

(** A random value in [0, 1) picks an element of a non-empty array. *)
Lemma pick_in_range (array : list string) (random : Q) :
  array <> [] ->
  (0 <= random)%Q -> (random < 1)%Q ->
  exists x, pick array random = Some x /\ In x array.
Proof.
  intros Hne H0 H1. unfold pick.
  set (n := Z.of_nat (List.length array)).
  assert (Hn : (0 < n)%Z) by (subst n; destruct array; [congruence | simpl; lia]).
  set (i := Qfloor (random * inject_Z n)).
  assert (Hn' : (0 < inject_Z n)%Q)
    by (change (inject_Z 0 < inject_Z n)%Q; rewrite <- Zlt_Qlt; exact Hn).
  assert (Hi0 : (0 <= i)%Z).
  { subst i. change 0%Z with (Qfloor 0). apply Qfloor_resp_le. nra. }
  assert (Hi1 : (i < n)%Z).
  { rewrite Zlt_Qlt. apply Qle_lt_trans with (random * inject_Z n)%Q.
    - apply Qfloor_le.
    - nra. }
  destruct (i <? 0)%Z eqn:E; [apply Z.ltb_lt in E; lia|].
  destruct (nth_error array (Z.to_nat i)) as [x|] eqn:Hx.
  - exists x. split; [reflexivity|]. now apply nth_error_In in Hx.
  - apply nth_error_None in Hx. subst n. lia.
Qed.

(** The shape of a generated name. *)
Lemma generated_name_shape (random1 random2 : Q) :
  (0 <= random1)%Q -> (random1 < 1)%Q ->
  (0 <= random2)%Q -> (random2 < 1)%Q ->
  exists prefix suffix,
    In prefix TOKEN_PREFIXES /\ In suffix TOKEN_SUFFIXES /\
    generateTokenName random1 random2 = prefix ++ " " ++ suffix.
Proof.
  intros H1 H1' H2 H2'. unfold generateTokenName.
  destruct (pick_in_range TOKEN_PREFIXES random1) as (p & Hp & Hpin);
    [discriminate | assumption | assumption |].
  destruct (pick_in_range TOKEN_SUFFIXES random2) as (s & Hs & Hsin);
    [discriminate | assumption | assumption |].
  exists p, s. rewrite Hp, Hs. now repeat split.
Qed.

(** X1. With the values of [Math.random()] in [0, 1), both array indices
    are in range: the generated name is a prefix of the list, one space,
    and a suffix of the list, never [undefined]. *)
Theorem generateTokenName_in_lists :
  forall random1 random2 : Q,
    (0 <= random1)%Q -> (random1 < 1)%Q ->
    (0 <= random2)%Q -> (random2 < 1)%Q ->
    exists prefix suffix,
      In prefix TOKEN_PREFIXES /\ In suffix TOKEN_SUFFIXES /\
      generateTokenName random1 random2 = prefix ++ " " ++ suffix.
Proof.
  intros r1 r2 H1 H1' H2 H2'.
  destruct (generated_name_shape r1 r2 H1 H1' H2 H2') as (p & s & Hp & Hs & E).
  exists p, s. repeat split; assumption.
Qed.

Lemma generateTokenName_in_lists_witness :
  (0 <= 13 # 15)%Q /\ (13 # 15 < 1)%Q /\ (0 <= 1 # 5)%Q /\ (1 # 5 < 1)%Q /\
  exists prefix suffix,
    In prefix TOKEN_PREFIXES /\ In suffix TOKEN_SUFFIXES /\
    generateTokenName (13 # 15) (1 # 5) = prefix ++ " " ++ suffix.
Proof.
  assert (A : (0 <= 13 # 15)%Q) by (vm_compute; discriminate).
  assert (B : (13 # 15 < 1)%Q) by reflexivity.
  assert (C : (0 <= 1 # 5)%Q) by (vm_compute; discriminate).
  assert (D : (1 # 5 < 1)%Q) by reflexivity.
  repeat (split; [assumption|]).
  exact (generateTokenName_in_lists (13 # 15) (1 # 5) A B C D).
Defined.

(** The symbol of a name of two words. *)
Lemma symbol_of_two_words a p b s :
  free_of " " (String a p) = true ->
  free_of " " (String b s) = true ->
  generateTokenSymbol (String a p ++ " " ++ String b s) =
  toUpperCase (String a (substring (String b s) 0 2)).
Proof.
  intros Hp Hs. unfold generateTokenSymbol.
  change (String a p ++ " " ++ String b s)
    with (String a p ++ String " " (String b s)).
  rewrite (split_app " " (String a p) (String b s) Hp).
  rewrite (split_free " " (String b s) Hs).
  cbn [List.length Nat.eqb map first_char join last_word String.length
       append Nat.ltb Nat.leb].
  f_equal. cbn [append]. f_equal.
  change (substring (String b s) 1 (4 - Z.of_nat 2))
    with (substring (String b s) (Z.of_nat 1) (Z.of_nat 2)).
  change (substring (String b s) 0 2)
    with (substring (String b s) (Z.of_nat 0) (Z.of_nat 2)).
  rewrite (substring_nat (String b s) 1 2) by lia.
  rewrite (substring_nat (String b s) 0 2) by lia.
  cbn [drop take Nat.sub]. reflexivity.
Qed.

(** X2. For a name of two non-empty words separated by one space, the
    symbol is the first letter of the first word followed by the first two
    letters of the second word (its only letter when it has one),
    upper-cased. *)
Theorem generateTokenSymbol_two_words :
  forall first second : string,
    first <> "" -> second <> "" ->
    free_of " " first = true -> free_of " " second = true ->
    generateTokenSymbol (first ++ " " ++ second) =
    toUpperCase (substring first 0 1 ++ substring second 0 2).
Proof.
  intros [|a p] [|b s] Hp Hs Fp Fs; try congruence.
  rewrite (symbol_of_two_words a p b s Fp Fs).
  change (substring (String a p) 0 1)
    with (substring (String a p) (Z.of_nat 0) (Z.of_nat 1)).
  rewrite (substring_nat (String a p) 0 1) by lia. reflexivity.
Qed.

Lemma generateTokenSymbol_two_words_witness :
  "Doge" <> "" /\ "X" <> "" /\
  free_of " " "Doge" = true /\ free_of " " "X" = true /\
  generateTokenSymbol ("Doge" ++ " " ++ "X") =
  toUpperCase (substring "Doge" 0 1 ++ substring "X" 0 2).
Proof.
  assert (A : "Doge" <> "") by discriminate.
  assert (B : "X" <> "") by discriminate.
  repeat (split; [first [assumption | reflexivity]|]).
  exact (generateTokenSymbol_two_words "Doge" "X" A B eq_refl eq_refl).
Defined.

(** X3. For a name without a space the symbol is the upper-cased first
    four characters of the name, or the whole name when it is shorter; in
    particular the empty name has the empty symbol.  When the name is ASCII
    text the symbol has as many characters as that part of the name. *)
Theorem generateTokenSymbol_one_word :
  forall name : string,
    free_of " " name = true ->
    generateTokenSymbol name = toUpperCase (take 4 name) /\
    (ascii_text name = true ->
     String.length (generateTokenSymbol name) = Nat.min 4 (String.length name)).
Proof.
  intros name Hfree.
  assert (H : generateTokenSymbol name = toUpperCase (take 4 name)).
  { unfold generateTokenSymbol. rewrite (split_free " " name Hfree).
    cbn [List.length Nat.eqb]. f_equal.
    destruct (Nat.le_gt_cases 4 (String.length name)) as [Hl|Hl].
    - replace (Z.min 4 (Z.of_nat (String.length name))) with (Z.of_nat 4) by lia.
      change 0%Z with (Z.of_nat 0).
      rewrite (substring_nat name 0 4) by lia. reflexivity.
    - replace (Z.min 4 (Z.of_nat (String.length name)))
        with (Z.of_nat (String.length name)) by lia.
      change 0%Z with (Z.of_nat 0).
      rewrite (substring_nat name 0 (String.length name)) by lia.
      cbn [drop]. rewrite Nat.sub_0_r.
      rewrite (take_all (String.length name) name (Nat.le_refl _)).
      symmetry. f_equal. apply take_all. lia. }
  split; [exact H|]. intros Hascii.
  rewrite H, (length_toUpperCase (take 4 name) (ascii_text_take 4 name Hascii)).
  apply length_take.
Qed.

Lemma generateTokenSymbol_one_word_witness :
  free_of " " "Bitcoin" = true /\
  ascii_text "Bitcoin" = true /\
  generateTokenSymbol "Bitcoin" = "BITC" /\
  String.length (generateTokenSymbol "Bitcoin") = 4%nat.
Proof.
  split; [reflexivity|]. split; [reflexivity|].
  destruct (generateTokenSymbol_one_word "Bitcoin" eq_refl) as [Hsym Hlen].
  split; [exact Hsym | exact (Hlen eq_refl)].
Defined.

Lemma every_pair_short_upper :
  forallb (fun prefix =>
    forallb (fun suffix => short_upper_symbol (prefix ++ " " ++ suffix))
            TOKEN_SUFFIXES)
    TOKEN_PREFIXES = true.
Proof. vm_compute. reflexivity. Qed.

(** X4. Whatever [Math.random()] returns in [0, 1), the symbol computed
    for the generated token name is made of two or three upper-case
    letters. *)
Theorem generated_symbol_short_upper :
  forall random1 random2 : Q,
    (0 <= random1)%Q -> (random1 < 1)%Q ->
    (0 <= random2)%Q -> (random2 < 1)%Q ->
    let symbol := generateTokenSymbol (generateTokenName random1 random2) in
    all_upper symbol = true /\
    (2 <= String.length symbol <= 3)%nat.
Proof.
  intros r1 r2 H1 H1' H2 H2' symbol.
  destruct (generated_name_shape r1 r2 H1 H1' H2 H2')
    as (p & s & Hp & Hs & Hname).
  pose proof every_pair_short_upper as H.
  rewrite forallb_forall in H. specialize (H p Hp).
  rewrite forallb_forall in H. specialize (H s Hs).
  unfold short_upper_symbol in H. rewrite <- Hname in H. fold symbol in H.
  apply andb_true_iff in H. destruct H as [H Hhi].
  apply andb_true_iff in H. destruct H as [Hup Hlo].
  apply Nat.leb_le in Hlo, Hhi. now repeat split.
Qed.

Lemma generated_symbol_short_upper_witness :
  (0 <= 0)%Q /\ (0 < 1)%Q /\ (0 <= 1 # 5)%Q /\ (1 # 5 < 1)%Q /\
  all_upper (generateTokenSymbol (generateTokenName 0 (1 # 5))) = true /\
  (2 <= String.length (generateTokenSymbol (generateTokenName 0 (1 # 5))) <= 3)%nat.
Proof.
  assert (A : (0 <= 0)%Q) by (vm_compute; discriminate).
  assert (B : (0 < 1)%Q) by reflexivity.
  assert (C : (0 <= 1 # 5)%Q) by (vm_compute; discriminate).
  assert (D : (1 # 5 < 1)%Q) by reflexivity.
  repeat (split; [assumption|]).
  exact (generated_symbol_short_upper 0 (1 # 5) A B C D).
Defined.

End TokenNamesSpec.

(** ** The private key file *)

Module PrivateKeysSpec.
Import JsString JsText JsTextFacts PrivateKeys.
Local Open Scope string_scope.

Lemma clean_key_parts k :
  clean_key k = true ->
  is_key k = true /\ trim k = k /\ free_of LF k = true.
Proof.
  unfold clean_key. intros H.
  apply andb_true_iff in H. destruct H as [H Hfree].
  apply andb_true_iff in H. destruct H as [Hkey Htrim].
  apply String.eqb_eq in Htrim. now repeat split.
Qed.

Lemma clean_key_trimEnd k : trim k = k -> trimEnd k = k.
Proof.
  intros H. assert (Hl : no_leading_space k).
  { rewrite <- H. apply trimEnd_no_leading, trimStart_no_leading. }
  unfold trim in H. now rewrite (trimStart_fixed k Hl) in H.
Qed.

(** A carriage return left at the end of a clean key is trimmed away. *)
Lemma trim_carriage_return k :
  clean_key k = true -> trim (k ++ String CR "") = k.
Proof.
  intros H. destruct (clean_key_parts k H) as (Hkey & Htrim & _).
  assert (Hl : no_leading_space (k ++ String CR "")).
  { destruct k as [|a k]; [discriminate|].
    assert (Ha : no_leading_space (String a k)).
    { rewrite <- Htrim. apply trimEnd_no_leading, trimStart_no_leading. }
    exact Ha. }
  unfold trim. rewrite (trimStart_fixed _ Hl).
  rewrite trimEnd_app_space by reflexivity.
  now apply clean_key_trimEnd.
Qed.

Lemma split_join_lines (terminator : string) (ks : list string) :
  free_of LF terminator = true ->
  Forall (fun k => clean_key k = true) ks ->
  ks <> [] ->
  exists lines,
    split LF (join (terminator ++ String LF "") ks) = lines /\
    List.length lines = List.length ks /\
    forall i k, nth_error ks i = Some k ->
      nth_error lines i = Some k \/
      nth_error lines i = Some (k ++ terminator).
Proof.
  intros Ht Hks. induction Hks as [|k ks Hk Hks IH]; [congruence|]. intros _.
  destruct (clean_key_parts k Hk) as (_ & _ & Hfree).
  destruct ks as [|k' ks'].
  - exists [k]. cbn [join]. rewrite (split_free LF k Hfree).
    repeat split. intros [|i] x Hx; simpl in *; [now left|].
    destruct i; discriminate.
  - destruct IH as (lines & Hlines & Hlen & Hnth); [discriminate|].
    exists ((k ++ terminator) :: lines).
    change (join (terminator ++ String LF "") (k :: k' :: ks'))
      with (k ++ (terminator ++ String LF "") ++
            join (terminator ++ String LF "") (k' :: ks')).
    replace (k ++ (terminator ++ String LF "") ++
             join (terminator ++ String LF "") (k' :: ks'))
      with ((k ++ terminator) ++
            String LF (join (terminator ++ String LF "") (k' :: ks'))).
    + rewrite split_app by (rewrite free_of_app, Hfree, Ht; reflexivity).
      rewrite Hlines. repeat split.
      * simpl. now rewrite Hlen.
      * intros [|i] x Hx; simpl in *.
        -- injection Hx as <-. now right.
        -- now apply Hnth.
    + generalize (join (terminator ++ String LF "") (k' :: ks')). intros rest.
      now rewrite !string_app_assoc.
Qed.

(** X5. Every key read from the file is a trimmed, non-empty line that is
    not a comment: it is not the empty string, does not begin with [#],
    carries no white space at either end (no carriage return either), and
    holds no line feed. *)
Theorem parsePrivateKeys_keys_are_clean :
  forall (content k : string),
    In k (parsePrivateKeys content) ->
    k <> "" /\
    startsWith k "#" = false /\
    trim k = k /\
    free_of LF k = true.
Proof.
  intros content k Hin. unfold parsePrivateKeys in Hin.
  apply filter_In in Hin. destruct Hin as [Hin Hkey].
  apply in_map_iff in Hin. destruct Hin as (line & <- & Hline).
  unfold is_key in Hkey. apply andb_true_iff in Hkey.
  destruct Hkey as [Hne Hhash].
  apply negb_true_iff in Hne, Hhash. apply String.eqb_neq in Hne.
  repeat split; try assumption.
  - apply trim_idem.
  - apply trim_free.
    pose proof (split_pieces_free LF content) as Hall.
    rewrite Forall_forall in Hall. now apply Hall.
Qed.

Lemma parsePrivateKeys_keys_are_clean_witness :
  In "0xabc" (parsePrivateKeys ("  0xabc " ++ String CR (String LF "# note"))) /\
  "0xabc" <> "" /\
  startsWith "0xabc" "#" = false /\
  trim "0xabc" = "0xabc" /\
  free_of LF "0xabc" = true.
Proof.
  assert (H : In "0xabc"
                (parsePrivateKeys ("  0xabc " ++ String CR (String LF "# note"))))
    by (vm_compute; now left).
  split; [exact H|].
  exact (parsePrivateKeys_keys_are_clean _ _ H).
Defined.

Lemma map_trim_lines (terminator : string) (ks lines : list string) :
  (forall k, clean_key k = true -> trim (k ++ terminator) = k) ->
  Forall (fun k => clean_key k = true) ks ->
  List.length lines = List.length ks ->
  (forall i k, nth_error ks i = Some k ->
     nth_error lines i = Some k \/ nth_error lines i = Some (k ++ terminator)) ->
  filter is_key (map trim lines) = ks.
Proof.
  intros Hterm Hks. revert lines.
  induction Hks as [|k ks Hk Hks IH]; intros [|l lines] Hlen Hnth;
    try discriminate; [reflexivity|].
  destruct (clean_key_parts k Hk) as (Hkey & Htrim & _).
  assert (Hl : trim l = k).
  { destruct (Hnth O k eq_refl) as [H|H]; injection H as ->;
      [exact Htrim | now apply Hterm]. }
  cbn [map filter]. rewrite Hl, Hkey. f_equal.
  apply IH; [simpl in Hlen; lia|].
  intros i x Hx. exact (Hnth (Datatypes.S i) x Hx).
Qed.

(** X6. A file that holds clean keys, one per line, is read back as
    exactly those keys in the same order, whether the lines end in a line
    feed or in a carriage return and a line feed. *)
Theorem parsePrivateKeys_round_trip :
  forall keys : list string,
    Forall (fun k => clean_key k = true) keys ->
    parsePrivateKeys (join (String LF "") keys) = keys /\
    parsePrivateKeys (join (String CR (String LF "")) keys) = keys.
Proof.
  intros keys Hks. destruct keys as [|k0 ks0] eqn:E; [split; reflexivity|].
  rewrite <- E in *. assert (Hne : keys <> []) by (subst; discriminate).
  clear E k0 ks0. unfold parsePrivateKeys. split.
  - destruct (split_join_lines "" keys eq_refl Hks Hne)
      as (lines & Hlines & Hlen & Hnth).
    cbn [append] in Hlines. rewrite Hlines.
    apply (map_trim_lines "" keys lines); try assumption.
    intros k Hk. destruct (clean_key_parts k Hk) as (_ & Htrim & _).
    now rewrite string_app_nil_r.
  - destruct (split_join_lines (String CR "") keys eq_refl Hks Hne)
      as (lines & Hlines & Hlen & Hnth).
    cbn [append] in Hlines. rewrite Hlines.
    apply (map_trim_lines (String CR "") keys lines); try assumption.
    exact trim_carriage_return.
Qed.

Lemma parsePrivateKeys_round_trip_witness :
  Forall (fun k => clean_key k = true) ["0xabc"; "0x12 34"] /\
  parsePrivateKeys (join (String LF "") ["0xabc"; "0x12 34"]) =
    ["0xabc"; "0x12 34"] /\
  parsePrivateKeys (join (String CR (String LF "")) ["0xabc"; "0x12 34"]) =
    ["0xabc"; "0x12 34"].
Proof.
  assert (H : Forall (fun k => clean_key k = true) ["0xabc"; "0x12 34"])
    by (repeat constructor).
  split; [exact H|].
  exact (parsePrivateKeys_round_trip ["0xabc"; "0x12 34"] H).
Defined.

(** X7. Loading the keys fails with [No private keys found in pk.txt]
    exactly when every line of the file is blank or a comment once
    trimmed (the empty file included); otherwise it yields the keys, at
    least one. *)
Theorem loadPrivateKeys_empty_iff :
  forall content : string,
    (loadPrivateKeys content = inl "No private keys found in pk.txt" <->
     Forall blank_or_comment (split LF content)) /\
    (forall keys, loadPrivateKeys content = inr keys ->
       keys = parsePrivateKeys content /\ keys <> []).
Proof.
  intros content. unfold loadPrivateKeys, parsePrivateKeys.
  set (lines := split LF content). clearbody lines.
  assert (Hnil : filter is_key (map trim lines) = [] <->
                 Forall blank_or_comment lines).
  { induction lines as [|l lines IH]; cbn [map filter].
    - split; [constructor | reflexivity].
    - unfold is_key at 1. unfold blank_or_comment at 1.
      destruct (String.eqb_spec (trim l) "") as [He|He]; cbn [negb andb].
      + rewrite IH. split.
        * intros H. constructor; [now left | exact H].
        * intros H. now inversion H.
      + destruct (startsWith (trim l) "#") eqn:Hh; cbn [negb].
        * rewrite IH. split.
          -- intros H. constructor; [now right | exact H].
          -- intros H. now inversion H.
        * split; [discriminate|]. intros H. inversion H as [|? ? [Hb|Hb] ?]; subst.
          -- contradiction.
          -- unfold blank_or_comment in *. congruence. }
  destruct (filter is_key (map trim lines)) as [|k ks] eqn:E; cbn [List.length Nat.eqb].
  - split.
    + split; [intros _; now apply Hnil | reflexivity].
    + discriminate.
  - split.
    + split; [discriminate|]. intros H. apply Hnil in H. discriminate.
    + intros keys H. injection H as <-. split; [reflexivity | discriminate].
Qed.

End PrivateKeysSpec.

(** ** The countdown of [main] *)

Module CountdownSpec.
Import JsString JsText Countdown.
Local Open Scope Z_scope.

Lemma two_digits_below_100 :
  forallb (fun n => two_digits (Z.of_nat n)) (seq 0 100) = true.
Proof. vm_compute. reflexivity. Qed.

Lemma two_digits_ok n : 0 <= n < 100 -> two_digits n = true.
Proof.
  intros Hn. pose proof two_digits_below_100 as H.
  rewrite forallb_forall in H. specialize (H (Z.to_nat n)).
  rewrite Z2Nat.id in H by lia. apply H. apply in_seq. lia.
Qed.

Lemma two_digits_field n :
  0 <= n < 100 ->
  String.length (padStart (toString n) 2 "0") = 2%nat /\
  decimal_value (padStart (toString n) 2 "0") = Some n.
Proof.
  intros Hn. pose proof (two_digits_ok n Hn) as H. unfold two_digits in H.
  apply andb_true_iff in H. destruct H as [Hlen Hval].
  apply Nat.eqb_eq in Hlen. split; [exact Hlen|].
  destruct (decimal_value (padStart (toString n) 2 "0")) as [m|]; [|discriminate].
  apply Z.eqb_eq in Hval. now subst.
Qed.

(** X8. While fewer than a hundred hours remain, each of the three fields
    of the clock is two characters wide, and read back as numbers the
    fields give minutes and seconds below 60 that add up, with the hours,
    to the remaining time. *)
Theorem clock_encodes_remaining_time :
  forall remainingTime : Z,
    0 <= remainingTime < 100 * 3600 ->
    let t := timeObj_of remainingTime in
    String.length (hours t) = 2%nat /\
    String.length (minutes t) = 2%nat /\
    String.length (seconds t) = 2%nat /\
    exists h m s : Z,
      decimal_value (hours t) = Some h /\
      decimal_value (minutes t) = Some m /\
      decimal_value (seconds t) = Some s /\
      0 <= m < 60 /\ 0 <= s < 60 /\
      h * 3600 + m * 60 + s = remainingTime.
Proof.
  intros r Hr t. subst t. unfold timeObj_of. cbn [hours minutes seconds].
  rewrite !Z.rem_mod_nonneg by lia.
  assert (Hh : 0 <= r / 3600 < 100)
    by (split; [apply Z.div_pos; lia | apply Z.div_lt_upper_bound; lia]).
  assert (Hm0 : 0 <= r mod 3600 < 3600) by (apply Z.mod_pos_bound; lia).
  assert (Hm : 0 <= r mod 3600 / 60 < 60)
    by (split; [apply Z.div_pos; lia | apply Z.div_lt_upper_bound; lia]).
  assert (Hs : 0 <= r mod 60 < 60) by (apply Z.mod_pos_bound; lia).
  destruct (two_digits_field (r / 3600)) as [L1 P1]; [lia|].
  destruct (two_digits_field (r mod 3600 / 60)) as [L2 P2]; [lia|].
  destruct (two_digits_field (r mod 60)) as [L3 P3]; [lia|].
  repeat split; try assumption.
  exists (r / 3600), (r mod 3600 / 60), (r mod 60).
  repeat split; try assumption; try lia.
  pose proof (Z.div_mod r 3600 ltac:(lia)) as E1.
  pose proof (Z.div_mod (r mod 3600) 60 ltac:(lia)) as E2.
  pose proof (Z.div_mod r 60 ltac:(lia)) as E3.
  pose proof (Z.mod_pos_bound (r mod 3600) 60 ltac:(lia)) as B.
  lia.
Qed.

Lemma clock_encodes_remaining_time_witness :
  0 <= 89999 < 100 * 3600 /\
  clock (timeObj_of 89999) = "24:59:59"%string /\
  String.length (hours (timeObj_of 89999)) = 2%nat.
Proof.
  assert (H : 0 <= 89999 < 100 * 3600) by lia.
  split; [exact H|]. split; [reflexivity|].
  exact (proj1 (clock_encodes_remaining_time 89999 H)).
Defined.

(** X9. Started with a positive [remainingTime], the countdown resolves at
    firing number [remainingTime] and not before: fewer firings leave it
    running with one clock written per firing, and any further firing
    finds the interval cleared.  From [HOURS_25] that is 90000 firings. *)
Theorem countdown_resolves_after :
  forall (remainingTime : Z) (n : nat),
    1 <= remainingTime ->
    (Z.of_nat n < remainingTime ->
     snd (fire n remainingTime) = false /\
     List.length (fst (fire n remainingTime)) = n) /\
    (remainingTime <= Z.of_nat n ->
     snd (fire n remainingTime) = true /\
     Z.of_nat (List.length (fst (fire n remainingTime))) = remainingTime).
Proof.
  intros r n. revert r. induction n as [|n IH]; intros r Hr.
  - split; [intros _; split; reflexivity | lia].
  - cbn [fire]. unfold tick.
    destruct (r - 1 <=? 0) eqn:E.
    + apply Z.leb_le in E. assert (r = 1) by lia. subst r.
      split; [lia|]. intros _. split; reflexivity.
    + apply Z.leb_gt in E.
      destruct (IH (r - 1) ltac:(lia)) as [IH1 IH2].
      destruct (fire n (r - 1)) as [texts later]. cbn [fst snd] in *.
      split; intros H.
      * destruct IH1 as [-> Hlen]; [lia|]. split; [reflexivity|].
        simpl. now rewrite Hlen.
      * destruct IH2 as [-> Hlen]; [lia|]. split; [reflexivity|].
        cbn [List.length]. lia.
Qed.

Lemma countdown_resolves_after_witness :
  1 <= 3 /\
  fire 2 3 = (["00:00:02"; "00:00:01"]%string, false) /\
  fire 5 3 = (["00:00:02"; "00:00:01"; "00:00:00"]%string, true) /\
  snd (fire 5 3) = true.
Proof.
  assert (H : 1 <= 3) by lia.
  split; [exact H|]. split; [reflexivity|]. split; [reflexivity|].
  apply (proj2 (countdown_resolves_after 3 5 H)). simpl. lia.
Defined.

End CountdownSpec.

(** ** More on the retry loop *)

Module RetryMore.
Import JsString JsNumber Policy Retry LoopFacts BackoffFacts BudgetFacts.
Local Open Scope Z_scope.

Section Counting.

Variables (T Err S : Type).
Variable message : Err -> option string.
Variable operation : S -> (T + Err) * S.
Variable p : policy.

(** Invocations and sleeps alternate: a run that leaves from inside the
    loop has made one invocation more than it has slept, a run that leaves
    after the loop as many. *)
Lemma loop_calls_sleeps a d e st :
  let r := loop message operation (maxAttempts p) (maxDelay p) (backoffFactor p)
                a d e st in
  (exit r <> ThrowAfterLoop ->
   (calls (trace (final r)) + List.length (sleeps (trace st)) =
    calls (trace st) + List.length (sleeps (trace (final r))) + 1)%nat) /\
  (exit r = ThrowAfterLoop ->
   (calls (trace (final r)) + List.length (sleeps (trace st)) =
    calls (trace st) + List.length (sleeps (trace (final r))))%nat).
Proof.
  cbv zeta.
  apply (loop_induction T Err S message operation p
    (fun _ _ _ st r =>
       (exit r <> ThrowAfterLoop ->
        (calls (trace (final r)) + List.length (sleeps (trace st)) =
         calls (trace st) + List.length (sleeps (trace (final r))) + 1)%nat) /\
       (exit r = ThrowAfterLoop ->
        (calls (trace (final r)) + List.length (sleeps (trace st)) =
         calls (trace st) + List.length (sleeps (trace (final r))))%nat)));
    clear a d e st.
  - intros a d e st _. simpl. split; [congruence | lia].
  - intros a d e st v w _ _. simpl. rewrite calls_app, sleeps_app, length_app.
    simpl. split; [lia | discriminate].
  - intros a d e st err w x _ _ _. simpl. rewrite calls_app, sleeps_app, length_app.
    simpl. split; [lia | discriminate].
  - intros a d e st err w b _ _ _ _. simpl. rewrite calls_app, sleeps_app, length_app.
    simpl. split; [lia | discriminate].
  - intros a d e st err w r _ _ _ _ [IH1 IH2].
    cbn [trace] in IH1, IH2.
    rewrite calls_app, sleeps_app, length_app in IH1, IH2. simpl in IH1, IH2.
    split; intros H; [specialize (IH1 H) | specialize (IH2 H)]; lia.
Qed.

End Counting.

(** X10. [withRetry] sleeps exactly once between two consecutive
    invocations of the operation and never after the one that ends the
    run: when it leaves from inside the loop the number of invocations is
    the number of sleeps plus one.  Only a run that leaves by the [throw]
    after the loop has slept after its last invocation too. *)
Theorem withRetry_sleeps_between_calls :
  forall (T Err S : Type) (message : Err -> option string)
         (operation : S -> (T + Err) * S) (arg : option policy) (w : S),
    let r := withRetry message operation arg (initial w) in
    (exit r <> ThrowAfterLoop ->
     calls (trace (final r)) = Datatypes.S (List.length (sleeps (trace (final r))))) /\
    (exit r = ThrowAfterLoop ->
     calls (trace (final r)) = List.length (sleeps (trace (final r)))).
Proof.
  intros T Err S message operation arg w r.
  destruct (loop_calls_sleeps T Err S message operation (bind_policy arg)
              1 (initialDelay (bind_policy arg)) None (initial w)) as [H1 H2].
  fold (withRetry message operation arg (initial w)) in H1, H2. fold r in H1, H2.
  cbn [initial trace calls sleeps List.length] in H1, H2.
  split; intros H; [specialize (H1 H) | specialize (H2 H)]; lia.
Qed.

Lemma withRetry_sleeps_between_calls_witness :
  exit (withRetry Instances.message_of Instances.always_timeout None (initial O))
    <> ThrowAfterLoop /\
  calls (trace (final (withRetry Instances.message_of Instances.always_timeout
                                 None (initial O)))) =
  Datatypes.S
    (List.length
       (sleeps (trace (final (withRetry Instances.message_of
                                        Instances.always_timeout None
                                        (initial O)))))).
Proof.
  assert (H : exit (withRetry Instances.message_of Instances.always_timeout None
                              (initial O)) <> ThrowAfterLoop)
    by (vm_compute; discriminate).
  split; [exact H|].
  exact (proj1 (withRetry_sleeps_between_calls nat string nat
                  Instances.message_of Instances.always_timeout None O) H).
Defined.

Section Fractional.

Variables (T Err S : Type).
Variable message : Err -> option string.
Variable operation : S -> (T + Err) * S.
Variable p : policy.
Variable q : Q.
Hypothesis Hbudget : maxAttempts p = Some (Fin q).
Hypothesis Hfraction : (inject_Z (Qfloor q) < q)%Q.
Hypothesis Hfail :
  forall w, exists err w',
    operation w = (inr err, w') /\ isRetryableError message err = Returned true.

Lemma in_budget_floor a : in_budget p a = true <-> a <= Qfloor q.
Proof.
  unfold in_budget. rewrite Hbudget. cbn [ToNumber]. rewrite le_Fin_of_Z. split.
  - intros H. apply Qfloor_resp_le in H. now rewrite Qfloor_Z in H.
  - intros H. apply Qle_trans with (inject_Z (Qfloor q)).
    + now rewrite <- Zle_Qle.
    + apply Qfloor_le.
Qed.

Lemma never_last_attempt a : strict_eq (of_Z a) (maxAttempts p) = false.
Proof.
  rewrite Hbudget. unfold strict_eq, of_Z.
  destruct (Qeq_bool (inject_Z a) q) eqn:E; [|reflexivity].
  apply Qeq_bool_iff in E. exfalso.
  assert (Hfl : Qfloor q = a) by (rewrite <- E; apply Qfloor_Z).
  rewrite Hfl in Hfraction. lra.
Qed.

(** Under a budget that is no integer, an operation that always fails
    with a retryable error is invoked for every counter up to the floor of
    the budget, each invocation followed by a sleep, and the run leaves by
    the [throw] after the loop. *)
Lemma fractional_budget_run a d e st :
  a <= Qfloor q + 1 ->
  let r := loop message operation (maxAttempts p) (maxDelay p) (backoffFactor p)
                a d e st in
  exit r = ThrowAfterLoop /\
  calls (trace (final r)) = (calls (trace st) + Z.to_nat (Qfloor q + 1 - a))%nat /\
  (a <= Qfloor q ->
   exists err,
     outcome operation (Z.to_nat (Qfloor q - a)) (world st) = inr err /\
     result r = Threw (ErrorValue err)) /\
  (Qfloor q < a -> result r = throw_last T e).
Proof.
  cbv zeta.
  apply (loop_induction T Err S message operation p
    (fun a _ e st r =>
       a <= Qfloor q + 1 ->
       exit r = ThrowAfterLoop /\
       calls (trace (final r)) =
         (calls (trace st) + Z.to_nat (Qfloor q + 1 - a))%nat /\
       (a <= Qfloor q ->
        exists err,
          outcome operation (Z.to_nat (Qfloor q - a)) (world st) = inr err /\
          result r = Threw (ErrorValue err)) /\
       (Qfloor q < a -> result r = throw_last T e))); clear a d e st.
  - intros a d e st Hb Ha.
    assert (Qfloor q < a).
    { destruct (Z.le_gt_cases a (Qfloor q)) as [H|H]; [|lia].
      apply in_budget_floor in H. congruence. }
    cbn [exit final result]. repeat split; try lia.
  - intros a d e st v w _ Hop _. destruct (Hfail (world st)) as (x & w' & Hx & _).
    congruence.
  - intros a d e st err w x _ Hop Hc _.
    destruct (Hfail (world st)) as (err' & w' & Hx & Hr). congruence.
  - intros a d e st err w b _ Hop Hc Hstop _.
    destruct (Hfail (world st)) as (err' & w' & Hx & Hr).
    rewrite never_last_attempt, orb_false_r in Hstop.
    assert (err' = err) by congruence. subst err'.
    rewrite Hr in Hc. injection Hc as <-. discriminate.
  - intros a d e st err w r Hb Hop Hc _ IH Ha.
    apply in_budget_floor in Hb.
    destruct IH as (Hexit & Hcalls & Hlast & Hnone); [lia|].
    cbn [world trace] in Hcalls, Hlast.
    split; [exact Hexit|]. split.
    + rewrite Hcalls, calls_app. simpl. lia.
    + split; [|lia]. intros _.
      destruct (Z.eq_dec a (Qfloor q)) as [Heq|Hne].
      * exists err. rewrite Hnone by lia. subst a.
        replace (Z.to_nat (Qfloor q - Qfloor q)) with O by lia.
        unfold outcome. cbn [world_after]. rewrite Hop. now split.
      * destruct Hlast as (err' & Hout & Hres); [lia|].
        exists err'. split; [|exact Hres].
        replace (Z.to_nat (Qfloor q - a))
          with (Datatypes.S (Z.to_nat (Qfloor q - (a + 1)))) by lia.
        rewrite outcome_succ, Hop. exact Hout.
Qed.

End Fractional.

(** X11. Under a budget [maxAttempts] of at least 1 that is no integer
    (2.5, say), the test [attempt === maxAttempts] never holds: an
    operation that always fails with a retryable error is invoked
    floor(maxAttempts) times, each invocation is followed by a sleep, the
    last one included, and the run fails by the [throw lastError] after the
    loop, with the error of the last invocation. *)
Theorem withRetry_fractional_budget :
  forall (T Err S : Type) (message : Err -> option string)
         (operation : S -> (T + Err) * S) (arg : option policy) (q : Q) (w : S),
    maxAttempts (bind_policy arg) = Some (Fin q) ->
    (1 <= q)%Q ->
    (inject_Z (Qfloor q) < q)%Q ->
    (forall w0, exists err w1,
        operation w0 = (inr err, w1) /\
        isRetryableError message err = Returned true) ->
    let r := withRetry message operation arg (initial w) in
    exit r = ThrowAfterLoop /\
    calls (trace (final r)) = Z.to_nat (Qfloor q) /\
    List.length (sleeps (trace (final r))) = Z.to_nat (Qfloor q) /\
    exists err,
      outcome operation (Z.to_nat (Qfloor q) - 1) w = inr err /\
      result r = Threw (ErrorValue err).
Proof.
  intros T Err S message operation arg q w Hq H1 Hfrac Hfail r.
  assert (Hfloor : 1 <= Qfloor q).
  { apply Qfloor_resp_le in H1. exact H1. }
  destruct (fractional_budget_run T Err S message operation (bind_policy arg) q
              Hq Hfrac Hfail 1 (initialDelay (bind_policy arg)) None (initial w))
    as (Hexit & Hcalls & Hlast & _); [lia|].
  fold (withRetry message operation arg (initial w)) in Hexit, Hcalls, Hlast.
  fold r in Hexit, Hcalls, Hlast. cbn [initial trace world calls] in Hcalls, Hlast.
  destruct (loop_calls_sleeps T Err S message operation (bind_policy arg)
              1 (initialDelay (bind_policy arg)) None (initial w)) as [_ Hsl].
  fold (withRetry message operation arg (initial w)) in Hsl. fold r in Hsl.
  specialize (Hsl Hexit). cbn [initial trace calls sleeps List.length] in Hsl.
  assert (Hc : calls (trace (final r)) = Z.to_nat (Qfloor q)).
  { rewrite Hcalls. simpl. f_equal. lia. }
  split; [exact Hexit|]. split; [exact Hc|]. split; [lia|].
  destruct (Hlast Hfloor) as (err & Hout & Hres). exists err.
  split; [|exact Hres].
  replace (Z.to_nat (Qfloor q) - 1)%nat with (Z.to_nat (Qfloor q - 1)) by lia.
  exact Hout.
Qed.

Lemma withRetry_fractional_budget_witness :
  maxAttempts (bind_policy (Some MoreInstances.fractional_budget)) =
    Some (Fin (5 # 2)) /\
  (1 <= 5 # 2)%Q /\
  (inject_Z (Qfloor (5 # 2)) < 5 # 2)%Q /\
  (forall w0 : nat, exists (err : string) (w1 : nat),
      Instances.always_timeout w0 = (inr err, w1) /\
      isRetryableError Instances.message_of err = Returned true) /\
  exit (withRetry Instances.message_of Instances.always_timeout
                  (Some MoreInstances.fractional_budget) (initial O)) =
    ThrowAfterLoop /\
  calls (trace (final (withRetry Instances.message_of Instances.always_timeout
                                 (Some MoreInstances.fractional_budget)
                                 (initial O)))) = 2%nat /\
  List.length
    (sleeps (trace (final (withRetry Instances.message_of
                                     Instances.always_timeout
                                     (Some MoreInstances.fractional_budget)
                                     (initial O))))) = 2%nat.
Proof.
  assert (A : (1 <= 5 # 2)%Q) by (vm_compute; discriminate).
  assert (B : (inject_Z (Qfloor (5 # 2)) < 5 # 2)%Q) by reflexivity.
  assert (C : forall w0 : nat, exists (err : string) (w1 : nat),
             Instances.always_timeout w0 = (inr err, w1) /\
             isRetryableError Instances.message_of err = Returned true).
  { intros w0. exists "request timeout"%string, (Datatypes.S w0).
    split; reflexivity. }
  split; [reflexivity|]. split; [exact A|]. split; [exact B|]. split; [exact C|].
  pose proof (withRetry_fractional_budget nat string nat Instances.message_of
                Instances.always_timeout (Some MoreInstances.fractional_budget)
                (5 # 2) O eq_refl A B C) as H.
  cbv zeta in H. destruct H as (H1 & H2 & H3 & _).
  split; [exact H1|]. split; [exact H2 | exact H3].
Defined.

End RetryMore.

(** ** Runs that use up an integer budget *)

Module ExhaustFacts.
Import JsString JsNumber Policy Retry LoopFacts BackoffFacts BudgetFacts RetryMore.
Local Open Scope Z_scope.

Lemma length_schedule p k d : List.length (schedule p k d) = k.
Proof.
  revert d; induction k as [|k IH]; intros d; simpl; auto.
Qed.

Section Exhaust.

Variables (T Err S : Type).
Variable message : Err -> option string.
Variable operation : S -> (T + Err) * S.
Variable p : policy.
Variable n : Z.
Hypothesis Hbudget : maxAttempts p = Some (of_Z n).

(** Under an integer budget the sleeps of a run are the schedule cut at
    the number of invocations less one, and the run leaves from inside the
    loop. *)
Lemma integer_budget_run a d e st :
  a <= n ->
  let r := loop message operation (maxAttempts p) (maxDelay p) (backoffFactor p)
                a d e st in
  exists k : nat,
    a + Z.of_nat k <= n /\
    exit r <> ThrowAfterLoop /\
    calls (trace (final r)) = (calls (trace st) + Datatypes.S k)%nat /\
    sleeps (trace (final r)) = sleeps (trace st) ++ schedule p k d /\
    world (final r) = world_after operation (Datatypes.S k) (world st) /\
    match outcome operation k (world st) with
    | inl v => result r = Returned v
    | inr err =>
        match isRetryableError message err with
        | Threw x => result r = Threw x
        | Returned retryable =>
            result r = Threw (ErrorValue err) /\ exit r = ThrowInCatch /\
            (a + Z.of_nat k = n \/ retryable = false)
        end
    end.
Proof.
  intros Ha r.
  destruct (run_characterisation T Err S message operation p n Hbudget a d e st Ha)
    as (k & Hk & _ & Hw & Hcalls & Hlast).
  fold r in Hw, Hcalls, Hlast.
  assert (Hexit : exit r <> ThrowAfterLoop).
  { destruct (outcome operation k (world st)) as [v|err].
    - destruct Hlast as [_ ->]. discriminate.
    - destruct (isRetryableError message err) as [b|x].
      + destruct Hlast as (_ & -> & _). discriminate.
      + destruct Hlast as [_ ->]. discriminate. }
  destruct (loop_sleeps T Err S message operation p a d e st) as [k' Hk'].
  fold r in Hk'.
  destruct (loop_calls_sleeps T Err S message operation p a d e st) as [Hcs _].
  fold r in Hcs. specialize (Hcs Hexit).
  rewrite Hk', length_app, length_schedule, Hcalls in Hcs.
  assert (k' = k) by lia. subst k'.
  exists k. repeat split; try assumption.
  destruct (outcome operation k (world st)) as [v|err]; [tauto|].
  destruct (isRetryableError message err) as [b|x]; tauto.
Qed.

End Exhaust.

(** The runs of the default policy: at most three invocations, at most
    two sleeps, of one and two seconds. *)
Lemma default_schedule k d :
  (k <= 2)%nat -> d = Some (of_Z 1000) ->
  Forall (fun ms => ms = Some (of_Z 1000) \/ ms = Some (of_Z 2000))
         (schedule RETRY_CONFIG k d).
Proof.
  intros Hk ->. destruct k as [|[|[|k]]]; try lia; simpl.
  - constructor.
  - constructor; [now left | constructor].
  - constructor; [now left|]. constructor; [now right | constructor].
Qed.

End ExhaustFacts.

(** ** The nested retries of the wallet methods *)

Module BotSpec.
Import JsString JsNumber Policy Retry LoopFacts BackoffFacts BudgetFacts.
Import RetryMore ExhaustFacts Bot.
Local Open Scope Z_scope.

Section Nested.

Variables (Tx Receipt Err W : Type).
Variable message : Err -> option string.
Variable type_error_text : string.
Variable wait : Tx -> W -> (Receipt + Err) * W.
Variable logger_error : string -> option string -> W -> W.
Variable label : string.
Variable submit : W -> (Tx + Err) * W.

Local Notation "'ATTEMPT'" :=
  (submit_and_confirm message type_error_text wait logger_error label submit).
Local Notation "'CONFIRM'" := (confirm message wait).
Local Notation "'RETHROW'" :=
  (log_and_rethrow message type_error_text logger_error label).

Lemma rethrow_cases x w :
  RETHROW x w = (TypeError, w) \/
  RETHROW x w = (x, logger_error label (thrown_message message type_error_text x) w).
Proof. destruct x; simpl; auto. Qed.

(** What one confirmation adds to the inner trace. *)
Lemma confirm_adds tx st :
  let r := CONFIRM tx st in
  exists k : nat,
    (k <= 2)%nat /\
    calls (trace (final r)) = (calls (trace st) + Datatypes.S k)%nat /\
    sleeps (trace (final r)) =
      sleeps (trace st) ++ schedule RETRY_CONFIG k (Some (of_Z 1000)).
Proof.
  intros r.
  destruct (integer_budget_run Receipt Err W message (wait tx) RETRY_CONFIG 3
              eq_refl 1 (Some (of_Z 1000)) None st ltac:(lia))
    as (k & Hk & _ & Hcalls & Hsleeps & _).
  exists k. repeat split; [lia | exact Hcalls | exact Hsleeps].
Qed.

(** What one attempt of the outer operation adds to the inner trace: no
    more than three waits and two sleeps. *)
Lemma attempt_adds st :
  let st' := snd (ATTEMPT st) in
  (calls (trace st') <= calls (trace st) + 3)%nat /\
  (List.length (sleeps (trace st')) <= List.length (sleeps (trace st)) + 2)%nat /\
  (Forall default_delay (sleeps (trace st)) ->
   Forall default_delay (sleeps (trace st'))).
Proof.
  cbv zeta. unfold submit_and_confirm.
  destruct (submit (world st)) as [[tx|err] w].
  - destruct (confirm_adds tx (mkState w (trace st))) as (k & Hk & Hc & Hs).
    cbn [trace] in Hc, Hs.
    assert (Hfinal :
      (calls (trace (final (CONFIRM tx (mkState w (trace st))))) <=
       calls (trace st) + 3)%nat /\
      (List.length (sleeps (trace (final (CONFIRM tx (mkState w (trace st)))))) <=
       List.length (sleeps (trace st)) + 2)%nat /\
      (Forall default_delay (sleeps (trace st)) ->
       Forall default_delay
         (sleeps (trace (final (CONFIRM tx (mkState w (trace st)))))))).
    { rewrite Hc, Hs, length_app, length_schedule.
      repeat split; try lia. intros H. apply Forall_app. split; [exact H|].
      now apply default_schedule. }
    destruct (result (CONFIRM tx (mkState w (trace st)))) as [receipt|x].
    + exact Hfinal.
    + destruct (RETHROW x (world (final (CONFIRM tx (mkState w (trace st))))))
        as [x' w']. exact Hfinal.
  - destruct (RETHROW (ErrorValue err) w) as [x' w']. cbn [snd trace].
    repeat split; try lia. auto.
Qed.

Lemma attempts_add j st :
  let st' := world_after ATTEMPT j st in
  (calls (trace st') <= calls (trace st) + 3 * j)%nat /\
  (List.length (sleeps (trace st')) <= List.length (sleeps (trace st)) + 2 * j)%nat /\
  (Forall default_delay (sleeps (trace st)) ->
   Forall default_delay (sleeps (trace st'))).
Proof.
  revert st. induction j as [|j IH]; intros st; cbn [world_after].
  - repeat split; try lia. auto.
  - destruct (attempt_adds st) as (H1 & H2 & H3).
    destruct (IH (snd (ATTEMPT st))) as (I1 & I2 & I3).
    repeat split; try lia. auto.
Qed.

End Nested.

(** X12. A wallet method of this shape ([selfTransfer],
    [swapCBTCForUSDC]) does bounded work whatever the ledger answers: it
    submits at most 3 transactions and waits for a confirmation at most 9
    times; the outer retry sleeps at most twice and the inner retries at
    most 6 times in all, every sleep being of one or two seconds. *)
Theorem retried_transaction_bounded :
  forall (Tx Receipt Err W : Type) (message : Err -> option string)
         (type_error_text : string)
         (wait : Tx -> W -> (Receipt + Err) * W)
         (logger_error : string -> option string -> W -> W)
         (label : string) (submit : W -> (Tx + Err) * W) (w : W),
    let r := retried_transaction message type_error_text wait logger_error
                                 label submit (fresh w) in
    (1 <= calls (trace (final r)) <= 3)%nat /\
    (calls (trace (world (final r))) <= 9)%nat /\
    (List.length (sleeps (trace (final r))) <= 2)%nat /\
    (List.length (sleeps (trace (world (final r)))) <= 6)%nat /\
    Forall default_delay (sleeps (trace (final r))) /\
    Forall default_delay (sleeps (trace (world (final r)))).
Proof.
  intros Tx Receipt Err W message type_error_text wait logger_error label
         submit w r.
  destruct (integer_budget_run Receipt (thrown Err) (state W)
              (thrown_message message type_error_text)
              (submit_and_confirm message type_error_text wait logger_error
                                  label submit)
              RETRY_CONFIG 3 eq_refl 1 (Some (of_Z 1000)) None (fresh w)
              ltac:(lia))
    as (k & Hk & _ & Hcalls & Hsleeps & Hworld & _).
  change (loop _ _ _ _ _ _ _ _ _) with r in Hcalls, Hsleeps, Hworld.
  cbn [fresh initial trace world calls sleeps app] in Hcalls, Hsleeps, Hworld.
  destruct (attempts_add Tx Receipt Err W message type_error_text wait
              logger_error label submit (Datatypes.S k) (initial w))
    as (A1 & A2 & A3).
  rewrite <- Hworld in A1, A2, A3. cbn [initial trace calls sleeps List.length] in *.
  rewrite Hcalls, Hsleeps, length_schedule.
  repeat split; try lia.
  - apply default_schedule; [lia | reflexivity].
  - apply A3. constructor.
Qed.

Section Outcomes.

Variables (Tx Receipt Err W : Type).
Variable message : Err -> option string.
Variable type_error_text : string.
Variable wait : Tx -> W -> (Receipt + Err) * W.
Variable logger_error : string -> option string -> W -> W.
Variable label : string.
Variable submit : W -> (Tx + Err) * W.

Local Notation "'ATTEMPT'" :=
  (submit_and_confirm message type_error_text wait logger_error label submit).
Local Notation "'CLASSIFY'" :=
  (isRetryableError (thrown_message message type_error_text)).

(** The outer classifier sees the error of the ledger client through the
    value the inner retry threw. *)
Lemma classify_error_value err b :
  isRetryableError message err = Returned b ->
  CLASSIFY (ErrorValue err) = Returned b.
Proof.
  unfold isRetryableError. cbn [thrown_message].
  destruct (message err); [|discriminate]. intros H. injection H as <-.
  reflexivity.
Qed.

(** When every wait for [tx] fails with a retryable error, its
    confirmation uses up its three attempts. *)
Lemma confirm_exhausts_tx tx st :
  (forall w, exists err w',
      wait tx w = (inr err, w') /\ isRetryableError message err = Returned true) ->
  let r := confirm message wait tx st in
  exists err,
    outcome (wait tx) 2 (world st) = inr err /\
    result r = Threw (ErrorValue err) /\
    isRetryableError message err = Returned true /\
    world (final r) = world_after (wait tx) 3 (world st) /\
    calls (trace (final r)) = (calls (trace st) + 3)%nat /\
    sleeps (trace (final r)) =
      sleeps (trace st) ++ [Some (of_Z 1000); Some (of_Z 2000)].
Proof.
  intros Hstuck r.
  destruct (integer_budget_run Receipt Err W message (wait tx) RETRY_CONFIG 3
              eq_refl 1 (Some (of_Z 1000)) None st ltac:(lia))
    as (k & Hk & _ & Hcalls & Hsleeps & Hworld & Hlast).
  change (loop _ _ _ _ _ _ _ _ _) with r in Hcalls, Hsleeps, Hworld, Hlast.
  destruct (Hstuck (world_after (wait tx) k (world st))) as (err & w' & Hop & Hc).
  assert (Hout : outcome (wait tx) k (world st) = inr err).
  { unfold outcome. rewrite Hop. reflexivity. }
  rewrite Hout, Hc in Hlast.
  destruct Hlast as (Hres & _ & [Hend | Hend]); [|discriminate].
  assert (k = 2%nat) by lia. subst k.
  exists err. repeat split; assumption.
Qed.

Hypothesis Hsubmit : forall w, exists tx w', submit w = (inl tx, w').
Hypothesis Hwait :
  forall tx w, exists err w',
    wait tx w = (inr err, w') /\ isRetryableError message err = Returned true.

(** One attempt: the transaction is submitted, and the attempt fails with
    the error of the third wait for it. *)
Lemma attempt_exhausts st :
  exists tx w1 err st',
    submit (world st) = (inl tx, w1) /\
    outcome (wait tx) 2 w1 = inr err /\
    ATTEMPT st = (inr (ErrorValue err), st') /\
    isRetryableError message err = Returned true /\
    calls (trace st') = (calls (trace st) + 3)%nat /\
    sleeps (trace st') = sleeps (trace st) ++ [Some (of_Z 1000); Some (of_Z 2000)].
Proof.
  destruct (Hsubmit (world st)) as (tx & w & Hs).
  destruct (confirm_exhausts_tx tx (mkState w (trace st)) (Hwait tx))
    as (err & Hout & Hres & Hc & _ & Hcalls & Hsleeps).
  cbn [world trace] in Hout, Hcalls, Hsleeps.
  exists tx, w, err. eexists.
  split; [exact Hs|]. split; [exact Hout|].
  split; [unfold submit_and_confirm; rewrite Hs, Hres; cbn [log_and_rethrow];
          reflexivity|].
  cbn [trace]. now repeat split.
Qed.

End Outcomes.

(** X13. When the submission succeeds and the first wait confirms it, the
    method returns that receipt after one submission and one wait, without
    sleeping and without logging an error. *)
Theorem retried_transaction_confirmed :
  forall (Tx Receipt Err W : Type) (message : Err -> option string)
         (type_error_text : string)
         (wait : Tx -> W -> (Receipt + Err) * W)
         (logger_error : string -> option string -> W -> W)
         (label : string) (submit : W -> (Tx + Err) * W)
         (w w1 w2 : W) (tx : Tx) (receipt : Receipt),
    submit w = (inl tx, w1) ->
    wait tx w1 = (inl receipt, w2) ->
    retried_transaction message type_error_text wait logger_error label submit
                        (fresh w) =
    mkRun ReturnInTry (Returned receipt) (mkState (mkState w2 [Call]) [Call]).
Proof.
  intros Tx Receipt Err W message type_error_text wait logger_error label
         submit w w1 w2 tx receipt Hsubmit Hwait.
  unfold retried_transaction, withRetry. cbn [bind_policy].
  apply (loop_return Receipt (thrown Err) (state W)
           (thrown_message message type_error_text)
           (submit_and_confirm message type_error_text wait logger_error
                               label submit)
           RETRY_CONFIG 1 _ None (fresh w) receipt (mkState w2 [Call]) eq_refl).
  unfold submit_and_confirm, fresh. cbn [initial world trace]. rewrite Hsubmit.
  unfold confirm, withRetry. cbn [bind_policy].
  rewrite (loop_return Receipt Err W message (wait tx) RETRY_CONFIG 1 _ None
             (mkState w1 []) receipt w2 eq_refl Hwait).
  reflexivity.
Qed.

(** X14. When the submission fails with an error that has a message and
    is classified not retryable, the method fails with that very error
    after one submission: nothing is awaited, nothing sleeps, and the error
    is logged once under the method's label. *)
Theorem retried_transaction_terminal_submission :
  forall (Tx Receipt Err W : Type) (message : Err -> option string)
         (type_error_text : string)
         (wait : Tx -> W -> (Receipt + Err) * W)
         (logger_error : string -> option string -> W -> W)
         (label : string) (submit : W -> (Tx + Err) * W)
         (w w1 : W) (err : Err),
    submit w = (inr err, w1) ->
    isRetryableError message err = Returned false ->
    retried_transaction message type_error_text wait logger_error label submit
                        (fresh w) =
    mkRun ThrowInCatch (Threw (ErrorValue (ErrorValue err)))
          (mkState (mkState (logger_error label (message err) w1) []) [Call]).
Proof.
  intros Tx Receipt Err W message type_error_text wait logger_error label
         submit w w1 err Hsubmit Hc.
  unfold retried_transaction, withRetry. cbn [bind_policy].
  apply (loop_rethrow Receipt (thrown Err) (state W)
           (thrown_message message type_error_text)
           (submit_and_confirm message type_error_text wait logger_error
                               label submit)
           RETRY_CONFIG 1 _ None (fresh w) (ErrorValue err)
           (mkState (logger_error label (message err) w1) []) false eq_refl).
  - unfold submit_and_confirm, fresh. cbn [initial world trace].
    rewrite Hsubmit. reflexivity.
  - apply (classify_error_value Err message type_error_text err false Hc).
  - reflexivity.
Qed.

(** X15. When every submission is accepted and every wait fails with a
    retryable error, the transaction is submitted three times and awaited
    nine times: each outer attempt sleeps 1000ms and 2000ms between its
    three waits, the outer retry sleeps 1000ms and 2000ms between the
    submissions, and the method fails with the error of the last wait: the
    third wait for the transaction of the third submission. *)
Theorem retried_transaction_never_confirmed :
  forall (Tx Receipt Err W : Type) (message : Err -> option string)
         (type_error_text : string)
         (wait : Tx -> W -> (Receipt + Err) * W)
         (logger_error : string -> option string -> W -> W)
         (label : string) (submit : W -> (Tx + Err) * W) (w : W),
    (forall w0, exists tx w1, submit w0 = (inl tx, w1)) ->
    (forall tx w0, exists err w1,
        wait tx w0 = (inr err, w1) /\
        isRetryableError message err = Returned true) ->
    let r := retried_transaction message type_error_text wait logger_error
                                 label submit (fresh w) in
    calls (trace (final r)) = 3%nat /\
    calls (trace (world (final r))) = 9%nat /\
    sleeps (trace (final r)) = [Some (of_Z 1000); Some (of_Z 2000)] /\
    sleeps (trace (world (final r))) =
      [Some (of_Z 1000); Some (of_Z 2000); Some (of_Z 1000); Some (of_Z 2000);
       Some (of_Z 1000); Some (of_Z 2000)] /\
    exit r = ThrowInCatch /\
    exists (tx : Tx) (w3 : W) (err : Err),
      submit (world (world_after
                       (submit_and_confirm message type_error_text wait
                                           logger_error label submit)
                       2 (initial w))) = (inl tx, w3) /\
      outcome (wait tx) 2 w3 = inr err /\
      isRetryableError message err = Returned true /\
      result r = Threw (ErrorValue (ErrorValue err)).
Proof.
  intros Tx Receipt Err W message type_error_text wait logger_error label
         submit w Hsubmit Hwait r.
  pose proof (attempt_exhausts Tx Receipt Err W message type_error_text wait
                logger_error label submit Hsubmit Hwait) as Hattempt.
  destruct (integer_budget_run Receipt (thrown Err) (state W)
              (thrown_message message type_error_text)
              (submit_and_confirm message type_error_text wait logger_error
                                  label submit)
              RETRY_CONFIG 3 eq_refl 1 (Some (of_Z 1000)) None (fresh w)
              ltac:(lia))
    as (k & Hk & _ & Hcalls & Hsleeps & Hworld & Hlast).
  change (loop _ _ _ _ _ _ _ _ _) with r in Hcalls, Hsleeps, Hworld, Hlast.
  unfold outcome in Hlast.
  destruct (Hattempt (world_after
              (submit_and_confirm message type_error_text wait logger_error
                                  label submit) k (world (fresh w))))
    as (tx & w3 & err & st' & Hs3 & Hout & Hop & Hc & _).
  rewrite Hop in Hlast. cbn [fst] in Hlast.
  rewrite (classify_error_value Err message type_error_text err true Hc) in Hlast.
  destruct Hlast as (Hres & Hexit & [Hend | Hend]); [|discriminate].
  assert (k = 2%nat) by lia. subst k.
  cbn [fresh initial trace world calls sleeps app] in Hcalls, Hsleeps, Hworld, Hs3.
  split; [exact Hcalls|].
  assert (Hinner :
    calls (trace (world (final r))) = 9%nat /\
    sleeps (trace (world (final r))) =
      [Some (of_Z 1000); Some (of_Z 2000); Some (of_Z 1000); Some (of_Z 2000);
       Some (of_Z 1000); Some (of_Z 2000)]).
  { rewrite Hworld. cbn [world_after].
    destruct (Hattempt (initial w)) as (? & ? & e1 & s1 & _ & _ & H1 & _ & C1 & S1).
    rewrite H1. cbn [snd].
    destruct (Hattempt s1) as (? & ? & e2 & s2 & _ & _ & H2 & _ & C2 & S2).
    rewrite H2. cbn [snd].
    destruct (Hattempt s2) as (? & ? & e3 & s3 & _ & _ & H3 & _ & C3 & S3).
    rewrite H3. cbn [snd].
    rewrite C3, C2, C1, S3, S2, S1. split; reflexivity. }
  destruct Hinner as [Hc9 Hs6].
  split; [exact Hc9|]. split; [exact Hsleeps|]. split; [exact Hs6|].
  split; [exact Hexit|]. exists tx, w3, err.
  split; [exact Hs3|]. split; [exact Hout|]. split; [exact Hc | exact Hres].
Qed.

Section ApproveAndSwap.

Variables (Tx Receipt Err W : Type).
Variable message : Err -> option string.
Variable type_error_text : string.
Variable wait : Tx -> W -> (Receipt + Err) * W.
Variable logger_error : string -> option string -> W -> W.
Variable label : string.
Variables approve swapTx : W -> (Tx + Err) * W.

Local Notation "'ATTEMPT'" :=
  (approve_and_swap message type_error_text wait logger_error label
                    approve swapTx).
Local Notation "'CONFIRM'" := (confirm message wait).
Local Notation "'RETHROW'" :=
  (log_and_rethrow message type_error_text logger_error label).

Local Notation "'grown'" := (@grown W).

Lemma grown_refl st : grown 0 0 st st.
Proof. unfold grown. repeat split; try lia. auto. Qed.

Lemma grown_trans c1 k1 c2 k2 st1 st2 st3 :
  grown c1 k1 st1 st2 -> grown c2 k2 st2 st3 -> grown (c1 + c2) (k1 + k2) st1 st3.
Proof.
  intros (A1 & A2 & A3) (B1 & B2 & B3). unfold grown.
  repeat split; try lia. auto.
Qed.

Lemma grown_weaken c k c' k' st st' :
  (c <= c')%nat -> (k <= k')%nat -> grown c k st st' -> grown c' k' st st'.
Proof.
  intros Hc Hk (A1 & A2 & A3). unfold grown. repeat split; try lia. auto.
Qed.

Lemma confirm_grown tx st : grown 3 2 st (final (CONFIRM tx st)).
Proof.
  destruct (confirm_adds Tx Receipt Err W message wait tx st)
    as (k & Hk & Hc & Hs).
  unfold grown. rewrite Hc, Hs, length_app, length_schedule.
  repeat split; try lia. intros H. apply Forall_app. split; [exact H|].
  now apply default_schedule.
Qed.

Lemma approve_and_swap_grown st : grown 6 4 st (snd (ATTEMPT st)).
Proof.
  unfold approve_and_swap.
  destruct (approve (world st)) as [[approveTx|err] w].
  - pose proof (confirm_grown approveTx (mkState w (trace st))) as G1.
    change (grown 3 2 st (final (CONFIRM approveTx (mkState w (trace st))))) in G1.
    destruct (result (CONFIRM approveTx (mkState w (trace st)))) as [receipt|x].
    + destruct (swapTx (world (final (CONFIRM approveTx (mkState w (trace st))))))
        as [[tx|err] w2].
      * pose proof (confirm_grown tx
                      (mkState w2 (trace (final (CONFIRM approveTx
                                                    (mkState w (trace st)))))))
          as G2.
        pose proof (grown_trans 3 2 3 2 st _ _ G1 G2) as G.
        destruct (result (CONFIRM tx _)) as [receipt2|x]; [exact G|].
        destruct (RETHROW x _) as [x' w']. exact G.
      * destruct (RETHROW (ErrorValue err) _) as [x' w'].
        apply (grown_weaken 3 2); [lia | lia | exact G1].
    + destruct (RETHROW x _) as [x' w'].
      apply (grown_weaken 3 2); [lia | lia | exact G1].
  - destruct (RETHROW (ErrorValue err) _) as [x' w'].
    unfold grown. cbn [snd trace]. repeat split; try lia. auto.
Qed.

Lemma approve_and_swap_iterated j st :
  grown (6 * j) (4 * j) st (world_after ATTEMPT j st).
Proof.
  revert st. induction j as [|j IH]; intros st; cbn [world_after].
  - apply grown_refl.
  - apply (grown_weaken (6 + 6 * j) (4 + 4 * j)); [lia | lia |].
    apply (grown_trans 6 4 (6 * j) (4 * j) st (snd (ATTEMPT st))).
    + apply approve_and_swap_grown.
    + apply IH.
Qed.

End ApproveAndSwap.

(** X22. [swapUSDCForCBTC] does bounded work whatever the ledger answers:
    at most 3 attempts, each of which approves and swaps at most once, at
    most 18 waits for a confirmation in all, at most 2 sleeps of the outer
    retry and 12 of the inner ones, every sleep being of one or two
    seconds. *)
Theorem swapUSDCForCBTC_bounded :
  forall (Tx Receipt Err W Amount : Type) (message : Err -> option string)
         (type_error_text : string)
         (wait : Tx -> W -> (Receipt + Err) * W)
         (logger_error : string -> option string -> W -> W)
         (approve swapExactTokensForETH : Amount -> W -> (Tx + Err) * W)
         (amountIn : Amount) (w : W),
    let r := swapUSDCForCBTC message type_error_text wait logger_error
                             approve swapExactTokensForETH amountIn (fresh w) in
    (1 <= calls (trace (final r)) <= 3)%nat /\
    (calls (trace (world (final r))) <= 18)%nat /\
    (List.length (sleeps (trace (final r))) <= 2)%nat /\
    (List.length (sleeps (trace (world (final r)))) <= 12)%nat /\
    Forall default_delay (sleeps (trace (final r))) /\
    Forall default_delay (sleeps (trace (world (final r)))).
Proof.
  intros Tx Receipt Err W Amount message type_error_text wait logger_error
         approve swapTx amountIn w r.
  destruct (integer_budget_run Receipt (thrown Err) (state W)
              (thrown_message message type_error_text)
              (approve_and_swap message type_error_text wait logger_error
                 "USDC to CBTC swap failed" (approve amountIn) (swapTx amountIn))
              RETRY_CONFIG 3 eq_refl 1 (Some (of_Z 1000)) None (fresh w)
              ltac:(lia))
    as (k & Hk & _ & Hcalls & Hsleeps & Hworld & _).
  change (loop _ _ _ _ _ _ _ _ _) with r in Hcalls, Hsleeps, Hworld.
  cbn [fresh initial trace world calls sleeps app] in Hcalls, Hsleeps, Hworld.
  destruct (approve_and_swap_iterated Tx Receipt Err W message type_error_text
              wait logger_error "USDC to CBTC swap failed"
              (approve amountIn) (swapTx amountIn) (Datatypes.S k) (initial w))
    as (A1 & A2 & A3).
  rewrite <- Hworld in A1, A2, A3. cbn [initial trace calls sleeps List.length] in *.
  rewrite Hcalls, Hsleeps, length_schedule.
  repeat split; try lia.
  - apply default_schedule; [lia | reflexivity].
  - apply A3. constructor.
Qed.

Section Reapproval.

Variables (Tx Receipt Err W : Type).
Variable message : Err -> option string.
Variable type_error_text : string.
Variable wait : Tx -> W -> (Receipt + Err) * W.
Variable logger_error : string -> option string -> W -> W.
Variable label : string.
Variables approve swapTx : W -> (Tx + Err) * W.

Hypothesis Happrove :
  forall w, exists tx w',
    approve w = (inl tx, w') /\
    forall w0, exists receipt w1, wait tx w0 = (inl receipt, w1).
Hypothesis Hswap :
  forall w, exists tx w',
    swapTx w = (inl tx, w') /\
    forall w0, exists err w1,
      wait tx w0 = (inr err, w1) /\ isRetryableError message err = Returned true.

(** One attempt: the approval is confirmed at once, the swap never. *)
Lemma approve_and_swap_stuck st :
  exists approveTx w1 receipt w2 tx w3 err st',
    approve (world st) = (inl approveTx, w1) /\
    wait approveTx w1 = (inl receipt, w2) /\
    swapTx w2 = (inl tx, w3) /\
    outcome (wait tx) 2 w3 = inr err /\
    approve_and_swap message type_error_text wait logger_error label
                     approve swapTx st = (inr (ErrorValue err), st') /\
    isRetryableError message err = Returned true /\
    calls (trace st') = (calls (trace st) + 4)%nat /\
    sleeps (trace st') = sleeps (trace st) ++ [Some (of_Z 1000); Some (of_Z 2000)].
Proof.
  destruct (Happrove (world st)) as (a & w & Ha & Hconfirmed).
  destruct (Hconfirmed w) as (receipt & w1 & Hwait1).
  assert (Hr1 : confirm message wait a (mkState w (trace st)) =
                mkRun ReturnInTry (Returned receipt)
                      (mkState w1 (trace st ++ [Call]))).
  { unfold confirm, withRetry. cbn [bind_policy].
    exact (loop_return Receipt Err W message (wait a) RETRY_CONFIG 1 _ None
             (mkState w (trace st)) receipt w1 eq_refl Hwait1). }
  destruct (Hswap w1) as (tx & w2 & Hs & Hstuck).
  destruct (confirm_exhausts_tx Tx Receipt Err W message wait tx
              (mkState w2 (trace st ++ [Call])) Hstuck)
    as (err & Hout & Hres & Hc & _ & Hcalls & Hsleeps).
  cbn [world trace] in Hout, Hcalls, Hsleeps.
  exists a, w, receipt, w1, tx, w2, err. eexists.
  split; [exact Ha|]. split; [exact Hwait1|]. split; [exact Hs|].
  split; [exact Hout|].
  split; [unfold approve_and_swap; rewrite Ha, Hr1;
          cbn [result final world trace]; rewrite Hs, Hres;
          cbn [log_and_rethrow]; reflexivity|].
  cbn [trace].
  rewrite Hcalls, Hsleeps, calls_app, sleeps_app. cbn [calls sleeps].
  rewrite app_nil_r. repeat split; [exact Hc | lia].
Qed.

End Reapproval.

(** X23. In [swapUSDCForCBTC] the approval is inside the retried
    operation, so every retry approves again.  When each approval is
    accepted and confirmed at its first wait, while the swap is accepted
    but each wait for it fails with a retryable error, the method makes 3
    attempts, hence 3 approvals and 3 swaps, waits 12 times (once per
    approval, three times per swap), and fails with the error of the last
    wait: the third wait for the swap of the third attempt, which follows
    the third approval and its confirmation. *)
Theorem swapUSDCForCBTC_approves_again :
  forall (Tx Receipt Err W Amount : Type) (message : Err -> option string)
         (type_error_text : string)
         (wait : Tx -> W -> (Receipt + Err) * W)
         (logger_error : string -> option string -> W -> W)
         (approve swapExactTokensForETH : Amount -> W -> (Tx + Err) * W)
         (amountIn : Amount) (w : W),
    (forall w0, exists tx w1,
        approve amountIn w0 = (inl tx, w1) /\
        forall w2, exists receipt w3, wait tx w2 = (inl receipt, w3)) ->
    (forall w0, exists tx w1,
        swapExactTokensForETH amountIn w0 = (inl tx, w1) /\
        forall w2, exists err w3,
          wait tx w2 = (inr err, w3) /\
          isRetryableError message err = Returned true) ->
    let r := swapUSDCForCBTC message type_error_text wait logger_error
                             approve swapExactTokensForETH amountIn (fresh w) in
    calls (trace (final r)) = 3%nat /\
    calls (trace (world (final r))) = 12%nat /\
    sleeps (trace (final r)) = [Some (of_Z 1000); Some (of_Z 2000)] /\
    List.length (sleeps (trace (world (final r)))) = 6%nat /\
    exit r = ThrowInCatch /\
    exists (approveTx tx : Tx) (w1 w2 w3 : W) (receipt : Receipt) (err : Err),
      approve amountIn
        (world (world_after
                  (approve_and_swap message type_error_text wait logger_error
                     "USDC to CBTC swap failed"
                     (approve amountIn) (swapExactTokensForETH amountIn))
                  2 (initial w))) = (inl approveTx, w1) /\
      wait approveTx w1 = (inl receipt, w2) /\
      swapExactTokensForETH amountIn w2 = (inl tx, w3) /\
      outcome (wait tx) 2 w3 = inr err /\
      isRetryableError message err = Returned true /\
      result r = Threw (ErrorValue (ErrorValue err)).
Proof.
  intros Tx Receipt Err W Amount message type_error_text wait logger_error
         approve swapTx amountIn w Happrove Hswap r.
  pose proof (approve_and_swap_stuck Tx Receipt Err W message type_error_text
                wait logger_error "USDC to CBTC swap failed"
                (approve amountIn) (swapTx amountIn) Happrove Hswap) as Hattempt.
  destruct (integer_budget_run Receipt (thrown Err) (state W)
              (thrown_message message type_error_text)
              (approve_and_swap message type_error_text wait logger_error
                 "USDC to CBTC swap failed" (approve amountIn) (swapTx amountIn))
              RETRY_CONFIG 3 eq_refl 1 (Some (of_Z 1000)) None (fresh w)
              ltac:(lia))
    as (k & Hk & _ & Hcalls & Hsleeps & Hworld & Hlast).
  change (loop _ _ _ _ _ _ _ _ _) with r in Hcalls, Hsleeps, Hworld, Hlast.
  unfold outcome in Hlast.
  destruct (Hattempt (world_after
              (approve_and_swap message type_error_text wait logger_error
                 "USDC to CBTC swap failed" (approve amountIn) (swapTx amountIn))
              k (world (fresh w))))
    as (a3 & w1 & receipt & w2 & tx & w3 & err & st' &
        Ha3 & Hw3 & Hs3 & Hout & Hop & Hc & _).
  rewrite Hop in Hlast. cbn [fst] in Hlast.
  rewrite (classify_error_value Err message type_error_text err true Hc) in Hlast.
  destruct Hlast as (Hres & Hexit & [Hend | Hend]); [|discriminate].
  assert (k = 2%nat) by lia. subst k.
  cbn [fresh initial trace world calls sleeps app] in Hcalls, Hsleeps, Hworld, Ha3.
  split; [exact Hcalls|].
  assert (Hinner :
    calls (trace (world (final r))) = 12%nat /\
    List.length (sleeps (trace (world (final r)))) = 6%nat).
  { rewrite Hworld. cbn [world_after].
    destruct (Hattempt (initial w))
      as (? & ? & ? & ? & ? & ? & e1 & s1 & _ & _ & _ & _ & H1 & _ & C1 & S1).
    rewrite H1. cbn [snd].
    destruct (Hattempt s1)
      as (? & ? & ? & ? & ? & ? & e2 & s2 & _ & _ & _ & _ & H2 & _ & C2 & S2).
    rewrite H2. cbn [snd].
    destruct (Hattempt s2)
      as (? & ? & ? & ? & ? & ? & e3 & s3 & _ & _ & _ & _ & H3 & _ & C3 & S3).
    rewrite H3. cbn [snd].
    rewrite C3, C2, C1, S3, S2, S1. split; reflexivity. }
  destruct Hinner as [Hc12 Hs6].
  split; [exact Hc12|]. split; [exact Hsleeps|]. split; [exact Hs6|].
  split; [exact Hexit|]. exists a3, tx, w1, w2, w3, receipt, err.
  split; [exact Ha3|]. split; [exact Hw3|]. split; [exact Hs3|].
  split; [exact Hout|]. split; [exact Hc | exact Hres].
Qed.

Lemma retried_transaction_confirmed_witness :
  MoreInstances.submit_accepted O = (inl O, 1%nat) /\
  MoreInstances.wait_confirmed O 1%nat = (inl O, 2%nat) /\
  selfTransfer Instances.message_of MoreInstances.v8_type_error
               MoreInstances.wait_confirmed MoreInstances.quiet_logger
               (fun _ : unit => MoreInstances.submit_accepted) tt (fresh O) =
  mkRun ReturnInTry (Returned O) (mkState (mkState 2%nat [Call]) [Call]).
Proof.
  split; [reflexivity|]. split; [reflexivity|].
  exact (retried_transaction_confirmed nat nat string nat Instances.message_of
           MoreInstances.v8_type_error MoreInstances.wait_confirmed
           MoreInstances.quiet_logger "Self transfer failed"
           MoreInstances.submit_accepted O 1%nat 2%nat O O eq_refl eq_refl).
Defined.

Lemma retried_transaction_terminal_submission_witness :
  MoreInstances.submit_reverted O = (inr "execution reverted"%string, 1%nat) /\
  isRetryableError Instances.message_of "execution reverted"%string =
    Returned false /\
  swapCBTCForUSDC Instances.message_of MoreInstances.v8_type_error
                  MoreInstances.wait_confirmed MoreInstances.quiet_logger
                  (fun _ : unit => MoreInstances.submit_reverted) tt (fresh O) =
  mkRun ThrowInCatch (Threw (ErrorValue (ErrorValue "execution reverted"%string)))
        (mkState (mkState 1%nat []) [Call]).
Proof.
  split; [reflexivity|]. split; [reflexivity|].
  exact (retried_transaction_terminal_submission nat nat string nat
           Instances.message_of MoreInstances.v8_type_error
           MoreInstances.wait_confirmed MoreInstances.quiet_logger
           "CBTC to USDC swap failed" MoreInstances.submit_reverted
           O 1%nat "execution reverted"%string eq_refl eq_refl).
Defined.

Lemma retried_transaction_never_confirmed_witness :
  (forall w0 : nat, exists (tx w1 : nat),
      MoreInstances.submit_accepted w0 = (inl tx, w1)) /\
  (forall (tx w0 : nat), exists (err : string) (w1 : nat),
      MoreInstances.wait_timeout tx w0 = (inr err, w1) /\
      isRetryableError Instances.message_of err = Returned true) /\
  calls (trace (final (selfTransfer Instances.message_of
                         MoreInstances.v8_type_error MoreInstances.wait_timeout
                         MoreInstances.quiet_logger
                         (fun _ : unit => MoreInstances.submit_accepted) tt
                         (fresh O)))) = 3%nat /\
  calls (trace (world (final (selfTransfer Instances.message_of
                         MoreInstances.v8_type_error MoreInstances.wait_timeout
                         MoreInstances.quiet_logger
                         (fun _ : unit => MoreInstances.submit_accepted) tt
                         (fresh O))))) = 9%nat /\
  result (selfTransfer Instances.message_of
            MoreInstances.v8_type_error MoreInstances.wait_timeout
            MoreInstances.quiet_logger
            (fun _ : unit => MoreInstances.submit_accepted) tt (fresh O)) =
    Threw (ErrorValue (ErrorValue "timeout"%string)).
Proof.
  assert (A : forall w0 : nat, exists (tx w1 : nat),
             MoreInstances.submit_accepted w0 = (inl tx, w1)).
  { intros w0. exists w0, (Datatypes.S w0). reflexivity. }
  assert (B : forall (tx w0 : nat), exists (err : string) (w1 : nat),
             MoreInstances.wait_timeout tx w0 = (inr err, w1) /\
             isRetryableError Instances.message_of err = Returned true).
  { intros tx w0. exists "timeout"%string, (Datatypes.S w0). split; reflexivity. }
  split; [exact A|]. split; [exact B|].
  pose proof (retried_transaction_never_confirmed nat nat string nat
                Instances.message_of MoreInstances.v8_type_error
                MoreInstances.wait_timeout MoreInstances.quiet_logger
                "Self transfer failed" MoreInstances.submit_accepted O A B) as H.
  cbv zeta in H.
  destruct H as (H1 & H2 & _ & _ & _ & tx & w3 & err & _ & Hout & _ & Hres).
  split; [exact H1|]. split; [exact H2|].
  unfold outcome in Hout. cbn in Hout. injection Hout as Hout.
  rewrite <- Hout in Hres. exact Hres.
Defined.

Lemma swapUSDCForCBTC_approves_again_witness :
  (forall w0 : nat, exists (tx : bool) (w1 : nat),
      MoreInstances.approve_accepted w0 = (inl tx, w1) /\
      forall w2 : nat, exists (receipt w3 : nat),
        MoreInstances.wait_for_approval_only tx w2 = (inl receipt, w3)) /\
  (forall w0 : nat, exists (tx : bool) (w1 : nat),
      MoreInstances.swap_accepted w0 = (inl tx, w1) /\
      forall w2 : nat, exists (err : string) (w3 : nat),
        MoreInstances.wait_for_approval_only tx w2 = (inr err, w3) /\
        isRetryableError Instances.message_of err = Returned true) /\
  calls (trace (final (swapUSDCForCBTC Instances.message_of
                         MoreInstances.v8_type_error
                         MoreInstances.wait_for_approval_only
                         MoreInstances.quiet_logger
                         (fun _ : unit => MoreInstances.approve_accepted)
                         (fun _ : unit => MoreInstances.swap_accepted) tt
                         (fresh O)))) = 3%nat /\
  calls (trace (world (final (swapUSDCForCBTC Instances.message_of
                         MoreInstances.v8_type_error
                         MoreInstances.wait_for_approval_only
                         MoreInstances.quiet_logger
                         (fun _ : unit => MoreInstances.approve_accepted)
                         (fun _ : unit => MoreInstances.swap_accepted) tt
                         (fresh O))))) = 12%nat /\
  result (swapUSDCForCBTC Instances.message_of MoreInstances.v8_type_error
            MoreInstances.wait_for_approval_only MoreInstances.quiet_logger
            (fun _ : unit => MoreInstances.approve_accepted)
            (fun _ : unit => MoreInstances.swap_accepted) tt (fresh O)) =
    Threw (ErrorValue (ErrorValue "timeout"%string)).
Proof.
  assert (A : forall w0 : nat, exists (tx : bool) (w1 : nat),
      MoreInstances.approve_accepted w0 = (inl tx, w1) /\
      forall w2 : nat, exists (receipt w3 : nat),
        MoreInstances.wait_for_approval_only tx w2 = (inl receipt, w3)).
  { intros w0. exists true, (Datatypes.S w0). split; [reflexivity|].
    intros w2. exists w2, (Datatypes.S w2). reflexivity. }
  assert (B : forall w0 : nat, exists (tx : bool) (w1 : nat),
      MoreInstances.swap_accepted w0 = (inl tx, w1) /\
      forall w2 : nat, exists (err : string) (w3 : nat),
        MoreInstances.wait_for_approval_only tx w2 = (inr err, w3) /\
        isRetryableError Instances.message_of err = Returned true).
  { intros w0. exists false, (Datatypes.S w0). split; [reflexivity|].
    intros w2. exists "timeout"%string, (Datatypes.S w2). split; reflexivity. }
  split; [exact A|]. split; [exact B|].
  pose proof (swapUSDCForCBTC_approves_again bool nat string nat unit
                Instances.message_of MoreInstances.v8_type_error
                MoreInstances.wait_for_approval_only MoreInstances.quiet_logger
                (fun _ : unit => MoreInstances.approve_accepted)
                (fun _ : unit => MoreInstances.swap_accepted) tt O A B) as H.
  cbv zeta in H. destruct H as (H1 & H2 & _).
  split; [exact H1|]. split; [exact H2|]. reflexivity.
Defined.

End BotSpec.

(** ** [contract NFTMinter] *)

Module NFTMinterSpec.
Import Solidity NFTMinter.
Local Open Scope Z_scope.

Lemma store_same {V : Type} (m : Z -> V) k v : store m k v k = v.
Proof. unfold store. now rewrite Z.eqb_refl. Qed.

Lemma store_other {V : Type} (m : Z -> V) k v k' : k' <> k -> store m k v k' = m k'.
Proof. unfold store. intros H. apply Z.eqb_neq in H. now rewrite H. Qed.

Lemma mint_ok sender s :
  0 <= _tokenCount s sender < MAX_UINT256 ->
  mint sender s =
  Ok (mkStorage (store (_tokenCount s) sender (_tokenCount s sender + 1))
                (store (_tokenOwners s) (_tokenCount s sender) sender)
                (_tokenURIs s),
      [NFTMinted sender (_tokenCount s sender);
       Transfer 0 sender (_tokenCount s sender)]).
Proof.
  intros H. unfold mint, checked_add.
  destruct (_tokenCount s sender + 1 <=? MAX_UINT256) eqn:E; [reflexivity|].
  apply Z.leb_gt in E. lia.
Qed.

(** X16. Token ids are the minter's own counter, so two accounts that have
    minted equally many tokens mint the same id: when [a] mints and then
    [b] mints, the token that [ownerOf] gave to [a] belongs to [b]
    afterwards, while [getTokenCount] still counts one more token for
    each. *)
Theorem mint_reassigns_token :
  forall (s : storage) (a b : Z),
    a <> 0 -> b <> 0 -> a <> b ->
    _tokenCount s a = _tokenCount s b ->
    0 <= _tokenCount s a < MAX_UINT256 ->
    exists s1 s2 events1 events2,
      mint a s = Ok (s1, events1) /\
      ownerOf (_tokenCount s a) s1 = Ok a /\
      mint b s1 = Ok (s2, events2) /\
      ownerOf (_tokenCount s a) s2 = Ok b /\
      getTokenCount a s2 = Ok (_tokenCount s a + 1) /\
      getTokenCount b s2 = Ok (_tokenCount s a + 1).
Proof.
  intros s a b Ha Hb Hab Heq Hrange.
  set (k := _tokenCount s a) in *.
  pose proof (mint_ok a s Hrange) as H1. fold k in H1.
  set (s1 := mkStorage (store (_tokenCount s) a (k + 1))
                       (store (_tokenOwners s) k a) (_tokenURIs s)) in *.
  assert (Hk1 : _tokenCount s1 b = k).
  { subst s1. cbn [_tokenCount]. rewrite store_other by congruence. now symmetry. }
  pose proof (mint_ok b s1 ltac:(rewrite Hk1; lia)) as H2. rewrite Hk1 in H2.
  eexists s1, _, _, _. split; [exact H1|]. split.
  - unfold ownerOf. subst s1. cbn [_tokenOwners]. rewrite store_same.
    apply Z.eqb_neq in Ha. now rewrite Ha.
  - split; [exact H2|]. split; [|split].
    + unfold ownerOf. cbn [_tokenOwners]. rewrite store_same.
      apply Z.eqb_neq in Hb. now rewrite Hb.
    + unfold getTokenCount. cbn [_tokenCount]. f_equal.
      rewrite store_other by congruence. subst s1. cbn [_tokenCount].
      apply store_same.
    + unfold getTokenCount. cbn [_tokenCount]. f_equal. apply store_same.
Qed.

Lemma mint_reassigns_token_witness :
  10 <> 0 /\ 20 <> 0 /\ 10 <> 20 /\
  _tokenCount deployed 10 = _tokenCount deployed 20 /\
  0 <= _tokenCount deployed 10 < MAX_UINT256 /\
  exists s1 s2 events1 events2,
    mint 10 deployed = Ok (s1, events1) /\
    ownerOf (_tokenCount deployed 10) s1 = Ok 10 /\
    mint 20 s1 = Ok (s2, events2) /\
    ownerOf (_tokenCount deployed 10) s2 = Ok 20 /\
    getTokenCount 10 s2 = Ok (_tokenCount deployed 10 + 1) /\
    getTokenCount 20 s2 = Ok (_tokenCount deployed 10 + 1).
Proof.
  assert (A : 10 <> 0) by lia. assert (B : 20 <> 0) by lia.
  assert (C : 10 <> 20) by lia.
  assert (D : 0 <= _tokenCount deployed 10 < MAX_UINT256)
    by (vm_compute; split; [discriminate | reflexivity]).
  repeat (split; [first [assumption | reflexivity]|]).
  exact (mint_reassigns_token deployed 10 20 A B C eq_refl D).
Defined.

(** X17. Only the owner of a token sets its URI.  When the owner does,
    [tokenURI] returns that URI afterwards and no other token's URI, no
    owner and no counter changes; any other sender is refused with
    [Not token owner], a token that does not exist included. *)
Theorem setTokenURI_owner_only :
  forall (s : storage) (sender tokenId : Z) (uri : string),
    sender <> 0 ->
    (_tokenOwners s tokenId = sender ->
     exists s',
       setTokenURI sender tokenId uri s = Ok (s', []) /\
       tokenURI tokenId s' = Ok uri /\
       (forall other, other <> tokenId ->
          _tokenURIs s' other = _tokenURIs s other) /\
       _tokenOwners s' = _tokenOwners s /\
       _tokenCount s' = _tokenCount s) /\
    (_tokenOwners s tokenId <> sender ->
     setTokenURI sender tokenId uri s = Revert "Not token owner"%string).
Proof.
  intros s sender tokenId uri Hs. split; intros H; unfold setTokenURI.
  - rewrite H, Z.eqb_refl. eexists. split; [reflexivity|].
    unfold tokenURI. cbn [_tokenOwners _tokenURIs _tokenCount].
    rewrite H. apply Z.eqb_neq in Hs. rewrite Hs, store_same.
    repeat split. intros other Ho. now apply store_other.
  - apply Z.eqb_neq in H. now rewrite H.
Qed.

Lemma setTokenURI_owner_only_witness :
  7 <> 0 /\
  setTokenURI 7 0 "ipfs://x" deployed = Revert "Not token owner"%string.
Proof.
  assert (A : 7 <> 0) by lia. split; [exact A|].
  apply (proj2 (setTokenURI_owner_only deployed 7 0 "ipfs://x" A)).
  vm_compute. discriminate.
Defined.

(** X18. In every storage the contract can reach, a token that has an
    owner has an id below that owner's counter, every counter is a
    [uint256], and a token without an owner has no URI; so [ownerOf] and
    [tokenURI] revert for every id that no counter has passed. *)
Theorem reachable_invariant :
  forall s : storage,
    reachable s ->
    (forall tokenId,
        _tokenOwners s tokenId <> 0 ->
        0 <= tokenId < _tokenCount s (_tokenOwners s tokenId)) /\
    (forall account, is_uint256 (_tokenCount s account)) /\
    (forall tokenId,
        _tokenOwners s tokenId = 0 -> _tokenURIs s tokenId = EmptyString).
Proof.
  intros s Hs. induction Hs as [|sender c s Hs IH Hwf].
  - split; [|split].
    + simpl. congruence.
    + intros account. unfold is_uint256, MAX_UINT256. simpl. lia.
    + reflexivity.
  - destruct IH as (Iown & Icnt & Iuri). destruct Hwf as (_ & Hsender & Hc).
    destruct c as [|tokenId uri]; unfold execute.
    + (* mint *)
      unfold mint, checked_add.
      destruct (_tokenCount s sender + 1 <=? MAX_UINT256) eqn:E;
        [|split; [exact Iown | split; [exact Icnt | exact Iuri]]].
      apply Z.leb_le in E. cbn [_tokenCount _tokenOwners _tokenURIs].
      pose proof (Icnt sender) as Hcs. unfold is_uint256 in Hcs.
      split; [|split].
      * intros tokenId H.
        destruct (Z.eq_dec tokenId (_tokenCount s sender)) as [->|Hne].
        -- rewrite !store_same. lia.
        -- rewrite (store_other (_tokenOwners s)) in H |- * by assumption.
           pose proof (Iown tokenId H) as Hid.
           destruct (Z.eq_dec (_tokenOwners s tokenId) sender) as [Heq|Hneq].
           ++ rewrite Heq, store_same. rewrite Heq in Hid. lia.
           ++ rewrite store_other by assumption. lia.
      * intros account. unfold is_uint256.
        destruct (Z.eq_dec account sender) as [->|Hne].
        -- rewrite store_same. lia.
        -- rewrite store_other by assumption. apply Icnt.
      * intros tokenId H.
        destruct (Z.eq_dec tokenId (_tokenCount s sender)) as [->|Hne].
        -- rewrite store_same in H. congruence.
        -- rewrite store_other in H by assumption. now apply Iuri.
    + (* setTokenURI *)
      unfold setTokenURI.
      destruct (_tokenOwners s tokenId =? sender) eqn:E;
        [|split; [exact Iown | split; [exact Icnt | exact Iuri]]].
      apply Z.eqb_eq in E. cbn [_tokenCount _tokenOwners _tokenURIs].
      split; [exact Iown | split; [exact Icnt|]].
      intros other H. destruct (Z.eq_dec other tokenId) as [->|Hne].
      * congruence.
      * rewrite store_other by assumption. now apply Iuri.
Qed.

Lemma reachable_invariant_witness :
  reachable (execute 10 Mint deployed) /\
  _tokenOwners (execute 10 Mint deployed) 0 = 10 /\
  0 <= 0 < _tokenCount (execute 10 Mint deployed) 10.
Proof.
  assert (R : reachable (execute 10 Mint deployed)).
  { apply reach_step; [apply reach_deployed|].
    unfold well_formed, is_address. repeat split; lia. }
  split; [exact R|]. split; [reflexivity|].
  apply (proj1 (reachable_invariant _ R) 0). vm_compute. discriminate.
Defined.

End NFTMinterSpec.

(** ** [contract SimpleSwap] *)

Module SimpleSwapSpec.
Import Solidity SimpleSwap NFTMinterSpec.
Local Open Scope Z_scope.

Lemma logged_liquidity_app token (events more : list log) :
  logged_liquidity token (events ++ more) =
  logged_liquidity token events + logged_liquidity token more.
Proof.
  induction events as [|[| |] events IH]; simpl; lia.
Qed.

Section Facts.

Variable L : Type.
Variable transferFrom : forall (token caller sender recipient amount : Z),
    L -> option (bool * L).
Variable transfer : forall (token caller recipient amount : Z),
    L -> option (bool * L).
Variable this : Z.

Local Notation "'ADD'" := (addLiquidity transferFrom this).
Local Notation "'REMOVE'" := (removeLiquidity transfer this).
Local Notation "'SWAP'" := (swap transferFrom transfer this).

Lemma require_call_ok (answer : option (bool * L)) reason (l : L) :
  require_call answer reason = Ok l <-> answer = Some (true, l).
Proof.
  unfold require_call. destruct answer as [[[|] l']|]; split; intros H;
    try discriminate; try (injection H as ->; reflexivity).
Qed.

(** What a successful call has done. *)
Lemma addLiquidity_ok sender token amount s s' events :
  ADD sender token amount s = Ok (s', events) ->
  transferFrom token this sender this amount (ledger s) = Some (true, ledger s') /\
  liquidityBalance s token + amount <= MAX_UINT256 /\
  liquidityBalance s' =
    store (liquidityBalance s) token (liquidityBalance s token + amount) /\
  events = [LiquidityAdded sender token amount].
Proof.
  unfold addLiquidity, checked_add.
  destruct (require_call _ _) as [l| |] eqn:Hc; try discriminate.
  apply require_call_ok in Hc.
  destruct (liquidityBalance s token + amount <=? MAX_UINT256) eqn:E;
    [|discriminate].
  apply Z.leb_le in E. intros H. injection H as <- <-. now repeat split.
Qed.

Lemma removeLiquidity_ok sender token amount s s' events :
  REMOVE sender token amount s = Ok (s', events) ->
  amount <= liquidityBalance s token /\
  transfer token this sender amount (ledger s) = Some (true, ledger s') /\
  liquidityBalance s' =
    store (liquidityBalance s) token (liquidityBalance s token - amount) /\
  events = [LiquidityRemoved sender token amount].
Proof.
  unfold removeLiquidity, checked_sub.
  destruct (liquidityBalance s token >=? amount) eqn:E; [|discriminate].
  apply Z.geb_le in E. apply Z.leb_le in E. rewrite E.
  destruct (require_call _ _) as [l| |] eqn:Hc; try discriminate.
  apply require_call_ok in Hc. apply Z.leb_le in E.
  intros H. injection H as <- <-. now repeat split.
Qed.

Lemma swap_ok sender tokenIn tokenOut amountIn amountOutMin s s' events :
  SWAP sender tokenIn tokenOut amountIn amountOutMin s = Ok (s', events) ->
  exists l,
    transferFrom tokenIn this sender this amountIn (ledger s) = Some (true, l) /\
    amountOutMin <= amountIn /\
    transfer tokenOut this sender amountIn l = Some (true, ledger s') /\
    liquidityBalance s' = liquidityBalance s /\
    events = [Swap sender tokenIn tokenOut amountIn amountIn].
Proof.
  unfold swap.
  destruct (require_call (transferFrom _ _ _ _ _ _) _) as [l| |] eqn:Hin;
    try discriminate.
  apply require_call_ok in Hin.
  destruct (amountIn >=? amountOutMin) eqn:E; [|discriminate].
  apply Z.geb_le in E.
  destruct (require_call (transfer _ _ _ _ _) _) as [l'| |] eqn:Hout;
    try discriminate.
  apply require_call_ok in Hout.
  intros H. injection H as <- <-. exists l. now repeat split.
Qed.

End Facts.

(** X19. Liquidity is pooled by token, not by provider: what one account
    has added, any account can remove.  After [provider] adds [amount] of
    [token], a [removeLiquidity] of the same amount by [anyone] succeeds as
    soon as the token transfers, pays the tokens to [anyone], and leaves
    the recorded liquidity where it was before the two calls. *)
Theorem liquidity_is_pooled :
  forall (L : Type)
         (transferFrom : Z -> Z -> Z -> Z -> Z -> L -> option (bool * L))
         (transfer : Z -> Z -> Z -> Z -> L -> option (bool * L))
         (this provider anyone token amount : Z) (s : state L) (l1 l2 : L),
    0 <= amount ->
    0 <= liquidityBalance s token ->
    liquidityBalance s token + amount <= MAX_UINT256 ->
    transferFrom token this provider this amount (ledger s) = Some (true, l1) ->
    transfer token this anyone amount l1 = Some (true, l2) ->
    exists s1 s2,
      addLiquidity transferFrom this provider token amount s =
        Ok (s1, [LiquidityAdded provider token amount]) /\
      removeLiquidity transfer this anyone token amount s1 =
        Ok (s2, [LiquidityRemoved anyone token amount]) /\
      ledger s2 = l2 /\
      forall t, liquidityBalance s2 t = liquidityBalance s t.
Proof.
  intros L transferFrom transfer this provider anyone token amount s l1 l2
         H0 Hliq Hmax Hin Hout.
  eexists _, _. unfold addLiquidity, checked_add. rewrite Hin. cbn [require_call].
  apply Z.leb_le in Hmax. rewrite Hmax. split; [reflexivity|].
  unfold removeLiquidity, checked_sub. cbn [liquidityBalance ledger].
  rewrite store_same.
  assert (E1 : (liquidityBalance s token + amount >=? amount) = true)
    by (apply Z.geb_le; lia).
  assert (E2 : (amount <=? liquidityBalance s token + amount) = true)
    by (apply Z.leb_le; lia).
  rewrite E1, E2, Hout. cbn [require_call]. split; [reflexivity|].
  cbn [ledger liquidityBalance]. split; [reflexivity|].
  intros t. unfold store. destruct (t =? token) eqn:E; [|reflexivity].
  apply Z.eqb_eq in E. subst t. lia.
Qed.

(** X20. A swap pays out exactly what it takes in.  Whenever [swap]
    succeeds, [amountOutMin] was at most [amountIn], the contract pulled
    [amountIn] of [tokenIn] from the sender and sent the same amount of
    [tokenOut] back, the event says so, and the recorded liquidity of every
    token is what it was: the swap neither updates it nor depends on it,
    the same call succeeds whatever the recorded liquidity is. *)
Theorem swap_is_one_to_one :
  forall (L : Type)
         (transferFrom : Z -> Z -> Z -> Z -> Z -> L -> option (bool * L))
         (transfer : Z -> Z -> Z -> Z -> L -> option (bool * L))
         (this sender tokenIn tokenOut amountIn amountOutMin : Z)
         (s s' : state L) (events : list log),
    swap transferFrom transfer this sender tokenIn tokenOut amountIn
         amountOutMin s = Ok (s', events) ->
    amountOutMin <= amountIn /\
    events = [Swap sender tokenIn tokenOut amountIn amountIn] /\
    liquidityBalance s' = liquidityBalance s /\
    (exists l,
      transferFrom tokenIn this sender this amountIn (ledger s) = Some (true, l) /\
      transfer tokenOut this sender amountIn l = Some (true, ledger s')) /\
    (forall balances : Z -> Z,
        swap transferFrom transfer this sender tokenIn tokenOut amountIn
             amountOutMin (mkState balances (ledger s)) =
        Ok (mkState balances (ledger s'), events)).
Proof.
  intros L transferFrom transfer this sender tokenIn tokenOut amountIn
         amountOutMin s s' events H.
  destruct (swap_ok L transferFrom transfer this sender tokenIn tokenOut
              amountIn amountOutMin s s' events H)
    as (l & Hin & Hmin & Hout & Hliq & Hev).
  repeat split; try assumption.
  - exists l. now split.
  - intros balances. unfold swap. cbn [ledger liquidityBalance].
    rewrite Hin. cbn [require_call].
    apply Z.geb_le in Hmin. rewrite Hmin, Hout. cbn [require_call].
    now rewrite Hev.
Qed.

(** X21. Whatever calls the contract has served since its deployment, the
    recorded liquidity of every token is a [uint256] and equals what the
    event log accounts for: the amounts of its [LiquidityAdded] events
    less the amounts of its [LiquidityRemoved] events. *)
Theorem liquidity_matches_events :
  forall (L : Type)
         (transferFrom : Z -> Z -> Z -> Z -> Z -> L -> option (bool * L))
         (transfer : Z -> Z -> Z -> Z -> L -> option (bool * L))
         (this : Z) (l0 : L) (s : state L) (events : list log),
    reachable transferFrom transfer this l0 (s, events) ->
    forall token,
      liquidityBalance s token = logged_liquidity token events /\
      is_uint256 (liquidityBalance s token).
Proof.
  intros L transferFrom transfer this l0 s events H.
  remember (s, events) as sl eqn:E. revert s events E.
  induction H as [|sender c [s0 ev0] Hr IH Hwf]; intros s events E token.
  - injection E as <- <-. cbn. unfold is_uint256, MAX_UINT256. split; lia.
  - specialize (IH s0 ev0 eq_refl).
    unfold execute in E. cbn [fst snd] in E.
    destruct (run_call transferFrom transfer this sender c s0)
      as [[s1 ev1]| |] eqn:Hrun;
      [| injection E as <- <-; apply IH | injection E as <- <-; apply IH].
    injection E as Hs He. subst s events. rewrite logged_liquidity_app.
    destruct (IH token) as [Hlog Hrange]. unfold is_uint256 in *.
    destruct c as [t amount | t amount | tin tout ain amin]; cbn [run_call] in Hrun;
      cbn [well_formed] in Hwf.
    + apply addLiquidity_ok in Hrun. destruct Hrun as (_ & Hmax & -> & ->).
      unfold is_uint256 in Hwf. cbn [logged_liquidity]. unfold store.
      destruct (token =? t) eqn:Et.
      * apply Z.eqb_eq in Et. subst t. rewrite Z.eqb_refl. lia.
      * rewrite Z.eqb_sym, Et. lia.
    + apply removeLiquidity_ok in Hrun. destruct Hrun as (Hle & _ & -> & ->).
      unfold is_uint256 in Hwf. cbn [logged_liquidity]. unfold store.
      destruct (token =? t) eqn:Et.
      * apply Z.eqb_eq in Et. subst t. rewrite Z.eqb_refl. lia.
      * rewrite Z.eqb_sym, Et. lia.
    + apply swap_ok in Hrun. destruct Hrun as (l & _ & _ & _ & -> & ->).
      cbn [logged_liquidity]. lia.
Qed.

Lemma liquidity_is_pooled_witness :
  0 <= 500 /\
  0 <= liquidityBalance (mkState (fun _ : Z => 0) ([] : MoreInstances.journal)) 7 /\
  liquidityBalance (mkState (fun _ : Z => 0) ([] : MoreInstances.journal)) 7 + 500
    <= MAX_UINT256 /\
  exists s1 s2,
    addLiquidity MoreInstances.journal_transferFrom 99 10 7 500
                 (mkState (fun _ : Z => 0) []) =
      Ok (s1, [LiquidityAdded 10 7 500]) /\
    removeLiquidity MoreInstances.journal_transfer 99 20 7 500 s1 =
      Ok (s2, [LiquidityRemoved 20 7 500]) /\
    ledger s2 = [(7, 10, 99, 500); (7, 99, 20, 500)] /\
    forall t, liquidityBalance s2 t = 0.
Proof.
  assert (A : 0 <= 500) by lia.
  assert (B : 0 <= liquidityBalance
                     (mkState (fun _ : Z => 0) ([] : MoreInstances.journal)) 7)
    by (simpl; lia).
  assert (C : liquidityBalance
                (mkState (fun _ : Z => 0) ([] : MoreInstances.journal)) 7 + 500
              <= MAX_UINT256) by (vm_compute; discriminate).
  split; [exact A|]. split; [exact B|]. split; [exact C|].
  exact (liquidity_is_pooled MoreInstances.journal
           MoreInstances.journal_transferFrom MoreInstances.journal_transfer
           99 10 20 7 500 (mkState (fun _ : Z => 0) [])
           [(7, 10, 99, 500)] [(7, 10, 99, 500); (7, 99, 20, 500)]
           A B C eq_refl eq_refl).
Defined.

Lemma swap_is_one_to_one_witness :
  swap MoreInstances.journal_transferFrom MoreInstances.journal_transfer
       99 10 7 8 300 250 (mkState (fun _ : Z => 0) []) =
    Ok (mkState (fun _ : Z => 0) [(7, 10, 99, 300); (8, 99, 10, 300)],
        [Swap 10 7 8 300 300]) /\
  250 <= 300.
Proof.
  assert (H : swap MoreInstances.journal_transferFrom
                   MoreInstances.journal_transfer
                   99 10 7 8 300 250 (mkState (fun _ : Z => 0) []) =
              Ok (mkState (fun _ : Z => 0) [(7, 10, 99, 300); (8, 99, 10, 300)],
                  [Swap 10 7 8 300 300])) by reflexivity.
  split; [exact H|].
  exact (proj1 (swap_is_one_to_one MoreInstances.journal
                  MoreInstances.journal_transferFrom
                  MoreInstances.journal_transfer 99 10 7 8 300 250 _ _ _ H)).
Defined.

Lemma liquidity_matches_events_witness :
  reachable MoreInstances.journal_transferFrom MoreInstances.journal_transfer
            99 []
            (execute MoreInstances.journal_transferFrom
                     MoreInstances.journal_transfer 99 10 (AddLiquidity 7 500)
                     (mkState (fun _ : Z => 0) [], [])) /\
  liquidityBalance
    (fst (execute MoreInstances.journal_transferFrom
                  MoreInstances.journal_transfer 99 10 (AddLiquidity 7 500)
                  (mkState (fun _ : Z => 0) [], []))) 7 =
  logged_liquidity 7
    (snd (execute MoreInstances.journal_transferFrom
                  MoreInstances.journal_transfer 99 10 (AddLiquidity 7 500)
                  (mkState (fun _ : Z => 0) [], []))).
Proof.
  assert (R : reachable MoreInstances.journal_transferFrom
                MoreInstances.journal_transfer 99 []
                (execute MoreInstances.journal_transferFrom
                         MoreInstances.journal_transfer 99 10
                         (AddLiquidity 7 500)
                         (mkState (fun _ : Z => 0) [], []))).
  { apply reach_step; [apply reach_deployed|].
    unfold well_formed, is_uint256. vm_compute. split; discriminate. }
  split; [exact R|].
  exact (proj1 (liquidity_matches_events MoreInstances.journal
                  MoreInstances.journal_transferFrom
                  MoreInstances.journal_transfer 99 [] _ _ R 7)).
Defined.

End SimpleSwapSpec.

(** ** More on the error classifier *)

Module ClassifierMore.
Import JsString JsStringFacts JsTextFacts JsNumber Policy Retry ClassifierSpec.
Local Open Scope string_scope.

Lemma occurs_in_trans a b c : occurs_in a b -> occurs_in b c -> occurs_in a c.
Proof.
  intros (p1 & q1 & ->) (p2 & q2 & ->). exists (p2 ++ p1), (q1 ++ q2).
  now rewrite !string_app_assoc.
Qed.

(** X24. Classification passes from a message to every message that
    contains it, whatever the case of the letters: if an error is
    retryable, so is any error whose lower-cased message contains the
    lower-cased message of the first, such as an error that wraps or
    quotes it. *)
Theorem isRetryableError_contained_message :
  forall (Err : Type) (message : Err -> option string) (inner outer : Err)
         (m m' : string),
    message inner = Some m ->
    message outer = Some m' ->
    occurs_in (toLowerCase m) (toLowerCase m') ->
    isRetryableError message inner = Returned true ->
    isRetryableError message outer = Returned true.
Proof.
  intros Err message inner outer m m' Hm Hm' Hocc Hin.
  apply (classify_true_iff Err message inner m Hm) in Hin.
  destruct Hin as (member & Hmem & Hsub).
  apply (classify_true_iff Err message outer m' Hm').
  exists member. split; [exact Hmem|].
  now apply occurs_in_trans with (toLowerCase m).
Qed.

Lemma isRetryableError_contained_message_witness :
  Instances.message_of "Timeout" = Some "Timeout" /\
  Instances.message_of "Contract TimeoutVault not found" =
    Some "Contract TimeoutVault not found" /\
  occurs_in (toLowerCase "Timeout")
            (toLowerCase "Contract TimeoutVault not found") /\
  isRetryableError Instances.message_of "Timeout" = Returned true /\
  isRetryableError Instances.message_of "Contract TimeoutVault not found" =
    Returned true.
Proof.
  assert (H : occurs_in (toLowerCase "Timeout")
                        (toLowerCase "Contract TimeoutVault not found"))
    by (apply includes_spec; reflexivity).
  split; [reflexivity|]. split; [reflexivity|]. split; [exact H|].
  split; [reflexivity|].
  exact (isRetryableError_contained_message string Instances.message_of
           "Timeout" "Contract TimeoutVault not found"
           "Timeout" "Contract TimeoutVault not found"
           eq_refl eq_refl H eq_refl).
Defined.

End ClassifierMore.
